(** * next-safe-action-query: the outcome normalizer, retry policy and
      option composition of [useSafeActionQuery] (src/index.ts)

    The hook hands three things to the query engine: a [queryFn] that calls
    the server action and classifies what comes back, a [retry] predicate,
    and an options object built from two defaults and the caller's options.
    This file embeds the three as Rocq functions and proves the properties
    the specification states about them.

    Modelling conventions.
    - Values follow the TypeScript declarations of index.ts: [serverError]
      is an optional string, [validationErrors] an optional tree with an
      optional top-level [_errors : string[]], [data] any JavaScript value.
    - [queryFn] runs in a small monad [Eff]: a log of callback invocations
      (what a [vi.fn()] mock records) paired with a normal or abrupt
      completion; [try_catch] is the [try { } catch (error) { }] statement.
    - The three callbacks are functions of the caller. A call is a log
      entry; what the callback does is how the call completes (it returns
      or it throws) and the state it leaves its argument in, since the
      array of messages and the error object are used again after the call.
    - JavaScript objects used as key/value bags (the hook options) are
      [gmap string PropValue]. *)

From Stdlib Require Import ZArith.
From stdpp Require Import base strings list gmap.

Local Open Scope Z_scope.
Set Warnings "-register-all".

(** ** JavaScript values *)

(** Plain data as it appears in action payloads and cache keys. *)
Inductive JsValue : Type :=
| JUndefined
| JNull
| JBool (b : bool)
| JNum (n : Z)
| JStr (s : string)
| JArr (items : list JsValue)
| JObj (props : list (string * JsValue)).

(** A property or variable of declared type [A] that may also hold
    [undefined] (or be missing) or [null]. *)
Inductive Optional (A : Type) : Type :=
| undefined
| null
| present (a : A).
Arguments undefined {A}.
Arguments null {A}.
Arguments present {A} a.

(** [x ?? d] *)
Definition nullish_coalesce {A} (x : Optional A) (d : A) : A :=
  match x with
  | present a => a
  | undefined | null => d
  end.

(** Truthiness narrowing of an optional string: [if (s) { ... s ... }].
    [undefined], [null] and the empty string are falsy. *)
Definition truthy_string (x : Optional string) : option string :=
  match x with
  | present s => if String.eqb s "" then None else Some s
  | undefined | null => None
  end.

(** Truthiness narrowing of an optional object: every object is truthy. *)
Definition truthy_object {A} (x : Optional A) : option A :=
  match x with
  | present a => Some a
  | undefined | null => None
  end.

(** [s || d] on strings. *)
Definition or_string (s d : string) : string :=
  if String.eqb s "" then d else s.

(** [xs.join(sep)] on an array of strings. *)
Definition join (sep : string) (xs : list string) : string :=
  String.concat sep xs.

(** [x === undefined] and [x === null] on data values. *)
Definition is_undefined (v : JsValue) : bool :=
  match v with JUndefined => true | _ => false end.

Definition is_null (v : JsValue) : bool :=
  match v with JNull => true | _ => false end.

(** ** Errors *)

(** An instance of [Error] that is not a [SafeActionError]. *)
Record JsError : Type := mkError {
  err_name : string;
  err_message : string
}.

(** [new Error(message)] *)
Definition new_Error (message : string) : JsError :=
  {| err_name := "Error"; err_message := message |}.

(** The validation-errors tree of next-safe-action:
    [{ _errors?: string[], [field]: nested tree }]. *)
Inductive ValidationErrors : Type :=
  mkValidationErrors {
    _errors : Optional (list string);
    fields : list (string * ValidationErrors)
  }.

(** ["server" | "validation" | "network"] *)
Inductive ErrorType : Type := server | validation | network.

Global Instance ErrorType_eq_dec : EqDecision ErrorType.
Proof. solve_decision. Defined.

(** What [details?: unknown] holds: the raw validation tree, the caught
    error, or any other value a caller of the public constructor passes. *)
Inductive Details : Type :=
| ValidationTree (v : ValidationErrors)
| CaughtError (e : JsError)
| OtherValue (v : JsValue).

(** [class SafeActionError extends Error]; [details = None] is an omitted
    third constructor argument. *)
Record SafeActionError : Type := mkSafeActionError {
  message : string;
  type : ErrorType;
  details : option Details
}.

(** The constructor sets [this.name = "SafeActionError"]. *)
Definition name (_ : SafeActionError) : string := "SafeActionError".

Definition new_SafeActionError
    (message : string) (type : ErrorType) (details : option Details)
  : SafeActionError :=
  mkSafeActionError message type details.

(** Anything a [throw] or a rejected promise can carry. *)
Inductive Thrown : Type :=
| ThrownSafeActionError (e : SafeActionError)
| ThrownError (e : JsError)
| ThrownValue (v : JsValue).

Definition instanceof_SafeActionError (error : Thrown) : bool :=
  match error with
  | ThrownSafeActionError _ => true
  | ThrownError _ | ThrownValue _ => false
  end.


(** ** The action collaborator *)

(** The object an action resolves to; the three fields are not exclusive. *)
Record ActionOutcome : Type := mkOutcome {
  data : JsValue;
  serverError : Optional string;
  validationErrors : Optional ValidationErrors
}.

(** How the promise returned by [action(actionInput)] settles. *)
Inductive Settled : Type :=
| Resolved (result : Optional ActionOutcome)
| Rejected (reason : Thrown).

(** [result?.serverError], [result?.validationErrors], [result?.data]:
    optional chaining yields [undefined] on a nullish [result]. *)
Definition result_serverError (result : Optional ActionOutcome)
  : Optional string :=
  match result with
  | present o => serverError o
  | undefined | null => undefined
  end.

Definition result_validationErrors (result : Optional ActionOutcome)
  : Optional ValidationErrors :=
  match result with
  | present o => validationErrors o
  | undefined | null => undefined
  end.

Definition result_data (result : Optional ActionOutcome) : JsValue :=
  match result with
  | present o => data o
  | undefined | null => JUndefined
  end.

(** ** Effects: callback log and completions *)

(** One recorded invocation of a caller-supplied callback. *)
Inductive Call : Type :=
| call_onServerError (error : string)
| call_onValidationErrors (errors : list string)
| call_onNetworkError (error : JsError).

Inductive Completion (A : Type) : Type :=
| Normal (a : A)
| Abrupt (error : Thrown).
Arguments Normal {A} a.
Arguments Abrupt {A} error.

(** A computation: the callbacks it invoked, in order, and how it ended. *)
Definition Eff (A : Type) : Type := list Call * Completion A.

Global Instance Eff_ret : MRet Eff := λ A a, ([], Normal a).

Global Instance Eff_bind : MBind Eff := λ A B k m,
  match m with
  | (log, Normal a) => let '(log', c) := k a in (log ++ log', c)
  | (log, Abrupt error) => (log, Abrupt error)
  end.

Definition throw {A} (error : Thrown) : Eff A := ([], Abrupt error).

(** [try { body } catch (error) { handler }] *)
Definition try_catch {A} (body : Eff A) (handler : Thrown → Eff A) : Eff A :=
  match body with
  | (log, Normal a) => (log, Normal a)
  | (log, Abrupt error) => let '(log', c) := handler error in (log ++ log', c)
  end.

(** [await promise] *)
Definition await (p : Settled) : Eff (Optional ActionOutcome) :=
  match p with
  | Resolved result => mret result
  | Rejected reason => throw reason
  end.

(** ** Callbacks *)

(** How a call of a caller's function completes. *)
Inductive CallbackResult : Type :=
| Returns
| Throws (error : Thrown).

(** What sits in a callback position. [callable f]: a function; [f a] is
    the state of the argument after the call (a string cannot change, an
    array or an [Error] object can) and how the call completed.
    [absent]: [undefined] or [null]. [uncallable]: any other value. *)
Inductive Callback (A : Type) : Type :=
| absent
| uncallable
| callable (f : A → A * CallbackResult).
Arguments absent {A}.
Arguments uncallable {A}.
Arguments callable {A} f.

(** The [TypeError] raised by calling a value that is not a function, with
    the message V8 (Node.js) gives it. *)
Definition TypeError_not_a_function (callee : string) : JsError :=
  {| err_name := "TypeError"; err_message := callee +:+ " is not a function" |}.

(** [callee?.(argument)]: skipped on [undefined] and [null], a [TypeError]
    on any other non-function, otherwise the call; yields the argument as
    the call left it. *)
Definition optional_call {A} (callee : string) (callback : Callback A)
    (record : A → Call) (argument : A) : Eff A :=
  match callback with
  | absent => mret argument
  | uncallable => throw (ThrownError (TypeError_not_a_function callee))
  | callable f =>
      let '(after, completion) := f argument in
      ([record argument],
       match completion with
       | Returns => Normal after
       | Throws error => Abrupt error
       end)
  end.

(** The three callbacks of [UseSafeActionQueryOptions]. *)
Record Callbacks : Type := mkCallbacks {
  onServerError : Callback string;
  onValidationErrors : Callback (list string);
  onNetworkError : Callback JsError
}.

(** The validation tree once the callback has had the [errors] array: when
    the array is the tree's own [_errors] the tree shows its new content,
    when it is the fresh [[]] of [?? []] the tree is untouched. *)
Definition tree_after_callback (validationErrors : ValidationErrors)
    (errors : list string) : ValidationErrors :=
  match _errors validationErrors with
  | present _ => mkValidationErrors (present errors) (fields validationErrors)
  | undefined | null => validationErrors
  end.

(** ** The outcome normalizer: [queryFn] *)

Section QueryFn.
Variable action : JsValue → Settled.
Variable actionInput : JsValue.
Variable callbacks : Callbacks.

(** index.ts lines 75-99, the body of the [try]. *)
Definition try_block : Eff JsValue :=
  result ← await (action actionInput);
  match truthy_string (result_serverError result) with
  | Some serverError =>
      optional_call "onServerError" (onServerError callbacks)
                    call_onServerError serverError;;
      throw (ThrownSafeActionError
               (new_SafeActionError serverError server None))
  | None =>
  match truthy_object (result_validationErrors result) with
  | Some validationErrors =>
      errors ← optional_call "onValidationErrors"
                 (onValidationErrors callbacks) call_onValidationErrors
                 (nullish_coalesce (_errors validationErrors) []);
      throw (ThrownSafeActionError
               (new_SafeActionError
                  (or_string (join ", " errors) "Validation failed")
                  validation
                  (Some (ValidationTree
                           (tree_after_callback validationErrors errors)))))
  | None =>
  if is_undefined (result_data result) || is_null (result_data result)
  then throw (ThrownSafeActionError
                (new_SafeActionError "No data returned from action"
                                     server None))
  else mret (result_data result)
  end
  end.

(** index.ts lines 100-114, the [catch (error)] clause. *)
Definition catch_block (error : Thrown) : Eff JsValue :=
  if instanceof_SafeActionError error then throw error
  else
    networkError ← optional_call "onNetworkError" (onNetworkError callbacks)
                     call_onNetworkError
                     (match error with
                      | ThrownError e => e
                      | _ => new_Error "Unknown error occurred"
                      end);
    throw (ThrownSafeActionError
             (new_SafeActionError
                ("Network error: " +:+ err_message networkError)
                network
                (Some (CaughtError networkError)))).

Definition queryFn : Eff JsValue := try_catch try_block catch_block.

(** The first branch of [catch_block] runs exactly when the [try] body
    ends abruptly with a [SafeActionError] instance. *)
Definition rethrow_branch_taken : bool :=
  match try_block with
  | (_, Abrupt error) => instanceof_SafeActionError error
  | (_, Normal _) => false
  end.
End QueryFn.

(** ** The retry policy *)

(** [error instanceof SafeActionError && error.type === t] *)
Definition is_SafeActionError_of_type (error : Thrown) (t : ErrorType) : bool :=
  match error with
  | ThrownSafeActionError e => bool_decide (type e = t)
  | ThrownError _ | ThrownValue _ => false
  end.

(** index.ts lines 116-127. *)
Definition retry (failureCount : nat) (error : Thrown) : bool :=
  if is_SafeActionError_of_type error validation then false
  else if is_SafeActionError_of_type error server then false
  else bool_decide (failureCount < 3)%nat.

(** ** Option composition: what the hook passes to [useQuery] *)

(** A function of the caller, by what it does when it is applied to each
    kind of argument the hook passes: a string, an array of strings (which
    it may change), an [Error] object (which it may change). *)
Record JsFunction : Type := mkFunction {
  apply_string : string → CallbackResult;
  apply_strings : list string → list string * CallbackResult;
  apply_error : JsError → JsError * CallbackResult
}.

(** A property value of the hook's [options] object or of the object
    handed to the engine. *)
Inductive PropValue : Type :=
| Data (v : JsValue)
| CallerFunction (fn : JsFunction)
| QueryFunction (run : Eff JsValue)
| RetryFunction (policy : nat → Thrown → bool).

(** The hook's own closures are functions too: an [async] function and a
    predicate, neither of which throws or touches its argument. *)
Definition quiet_function : JsFunction :=
  {| apply_string := λ _, Returns;
     apply_strings := λ errors, (errors, Returns);
     apply_error := λ error, (error, Returns) |}.

(** A property read in a callback position. *)
Definition callback_of {A} (p : option PropValue)
    (apply : JsFunction → A → A * CallbackResult) : Callback A :=
  match p with
  | None | Some (Data JUndefined) | Some (Data JNull) => absent
  | Some (Data _) => uncallable
  | Some (CallerFunction fn) => callable (apply fn)
  | Some (QueryFunction _) | Some (RetryFunction _) =>
      callable (apply quiet_function)
  end.

(** A property read as plain data; a missing property reads [undefined]. *)
Definition read_data (p : option PropValue) : JsValue :=
  match p with
  | Some (Data v) => v
  | _ => JUndefined
  end.

(** [{ ...source }] written after the properties of [target]: every own
    property of [source] is assigned last and so wins. *)
Definition spread (source target : gmap string PropValue)
  : gmap string PropValue :=
  source ∪ target.

(** The four names the hook destructures out of [options]. *)
Definition hook_keys : list string :=
  ["actionInput"; "onServerError"; "onValidationErrors"; "onNetworkError"].

(** [const { actionInput, onServerError, onValidationErrors, onNetworkError,
    ...queryOptions } = options], the rest part. *)
Definition queryOptions (options : gmap string PropValue)
  : gmap string PropValue :=
  delete "onNetworkError"
    (delete "onValidationErrors"
       (delete "onServerError"
          (delete "actionInput" options))).

Definition callbacks_of (options : gmap string PropValue) : Callbacks :=
  {| onServerError :=
       callback_of (options !! "onServerError")
                   (λ fn error, (error, apply_string fn error));
     onValidationErrors :=
       callback_of (options !! "onValidationErrors") apply_strings;
     onNetworkError :=
       callback_of (options !! "onNetworkError") apply_error |}.

(** index.ts lines 71-132: the object literal passed to [useQuery]. *)
Definition useQuery_options
    (queryKey : list JsValue) (action : JsValue → Settled)
    (options : gmap string PropValue) : gmap string PropValue :=
  let actionInput := read_data (options !! "actionInput") in
  spread (queryOptions options)
    (<["throwOnError" := Data (JBool false)]>
       (<["staleTime" := Data (JNum (30 * 1000))]>
          (<["retry" := RetryFunction retry]>
             (<["queryFn" :=
                  QueryFunction
                    (queryFn action actionInput (callbacks_of options))]>
                (<["queryKey" := Data (JArr queryKey)]> ∅))))).

Section Hook.
Context {QueryResult : Type}.
(** The external query engine. *)
Variable useQuery : gmap string PropValue → QueryResult.

Definition useSafeActionQuery
    (queryKey : list JsValue) (action : JsValue → Settled)
    (options : gmap string PropValue) : QueryResult :=
  useQuery (useQuery_options queryKey action options).
End Hook.

(** ** Vocabulary for statements about callbacks *)

(** The log entry a call of [callback] on [argument] leaves: one entry when
    it is a function, none otherwise. *)
Definition invocation {A} (callback : Callback A) (record : A → Call)
    (argument : A) : list Call :=
  match callback with
  | callable _ => [record argument]
  | absent | uncallable => []
  end.

(** [callback?.(argument)] completes normally: the callback is not given,
    or it is a function that returns when applied to [argument]. *)
Definition returns_normally {A} (callback : Callback A) (argument : A)
  : Prop :=
  match callback with
  | absent => True
  | uncallable => False
  | callable f => (f argument).2 = Returns
  end.

(** The argument as [callback?.(argument)] leaves it. *)
Definition argument_after {A} (callback : Callback A) (argument : A) : A :=
  match callback with
  | callable f => (f argument).1
  | absent | uncallable => argument
  end.

(** The call leaves [argument] as it was. *)
Definition leaves_unchanged {A} (callback : Callback A) (argument : A)
  : Prop :=
  match callback with
  | callable f => (f argument).1 = argument
  | absent | uncallable => True
  end.

(** [callback?.(argument)] does not raise anything but a [SafeActionError]:
    it completes normally, or the function throws a [SafeActionError]. *)
Definition returns_or_throws_classified {A} (callback : Callback A)
    (argument : A) : Prop :=
  match callback with
  | absent => True
  | uncallable => False
  | callable f =>
      match (f argument).2 with
      | Returns => True
      | Throws error => instanceof_SafeActionError error = true
      end
  end.

(** [callback?.(argument)] raises [error]: the value is not callable and
    [error] is the [TypeError], or the function throws [error]. *)
Definition raises {A} (callee : string) (callback : Callback A)
    (argument : A) (error : Thrown) : Prop :=
  match callback with
  | absent => False
  | uncallable => error = ThrownError (TypeError_not_a_function callee)
  | callable f => (f argument).2 = Throws error
  end.

(** All three callbacks return normally and change nothing, whatever they
    are applied to. *)
Definition well_behaved (callbacks : Callbacks) : Prop :=
  (∀ s, returns_normally (onServerError callbacks) s)
  ∧ (∀ errors, returns_normally (onValidationErrors callbacks) errors
               ∧ leaves_unchanged (onValidationErrors callbacks) errors)
  ∧ (∀ e, returns_normally (onNetworkError callbacks) e
          ∧ leaves_unchanged (onNetworkError callbacks) e).

(** ** The shapes of a run, as relations (used as an inversion principle) *)

(** [Caught callbacks log error run]: the [try] body logged [log] and threw
    [error]; [run] is what the [catch] clause makes of it. *)
Inductive Caught (callbacks : Callbacks) (log : list Call) (error : Thrown)
  : Eff JsValue → Prop :=
| caught_rethrown :
    instanceof_SafeActionError error = true →
    Caught callbacks log error (log, Abrupt error)
| caught_wrapped networkError after :
    instanceof_SafeActionError error = false →
    networkError = match error with
                   | ThrownError e => e
                   | _ => new_Error "Unknown error occurred"
                   end →
    returns_normally (onNetworkError callbacks) networkError →
    after = argument_after (onNetworkError callbacks) networkError →
    Caught callbacks log error
      (log ++ invocation (onNetworkError callbacks) call_onNetworkError
                networkError,
       Abrupt (ThrownSafeActionError
                 (new_SafeActionError
                    ("Network error: " +:+ err_message after)
                    network (Some (CaughtError after)))))
| caught_leaked networkError error' :
    instanceof_SafeActionError error = false →
    networkError = match error with
                   | ThrownError e => e
                   | _ => new_Error "Unknown error occurred"
                   end →
    raises "onNetworkError" (onNetworkError callbacks) networkError error' →
    Caught callbacks log error
      (log ++ invocation (onNetworkError callbacks) call_onNetworkError
                networkError,
       Abrupt error').

(** [Run action actionInput callbacks run]: [run] is one of the seven ways
    [queryFn] can go. *)
Inductive Run (action : JsValue → Settled) (actionInput : JsValue)
    (callbacks : Callbacks) : Eff JsValue → Prop :=
| run_success result :
    action actionInput = Resolved result →
    truthy_string (result_serverError result) = None →
    truthy_object (result_validationErrors result) = None →
    is_undefined (result_data result) || is_null (result_data result)
      = false →
    Run action actionInput callbacks ([], Normal (result_data result))
| run_no_data result :
    action actionInput = Resolved result →
    truthy_string (result_serverError result) = None →
    truthy_object (result_validationErrors result) = None →
    is_undefined (result_data result) || is_null (result_data result)
      = true →
    Run action actionInput callbacks
      ([], Abrupt (ThrownSafeActionError
                     (new_SafeActionError "No data returned from action"
                        server None)))
| run_server_error result msg :
    action actionInput = Resolved result →
    truthy_string (result_serverError result) = Some msg →
    returns_normally (onServerError callbacks) msg →
    Run action actionInput callbacks
      (invocation (onServerError callbacks) call_onServerError msg,
       Abrupt (ThrownSafeActionError (new_SafeActionError msg server None)))
| run_server_callback_raised result msg error run :
    action actionInput = Resolved result →
    truthy_string (result_serverError result) = Some msg →
    raises "onServerError" (onServerError callbacks) msg error →
    Caught callbacks
      (invocation (onServerError callbacks) call_onServerError msg)
      error run →
    Run action actionInput callbacks run
| run_validation_error result V after :
    action actionInput = Resolved result →
    truthy_string (result_serverError result) = None →
    truthy_object (result_validationErrors result) = Some V →
    returns_normally (onValidationErrors callbacks)
      (nullish_coalesce (_errors V) []) →
    after = argument_after (onValidationErrors callbacks)
              (nullish_coalesce (_errors V) []) →
    Run action actionInput callbacks
      (invocation (onValidationErrors callbacks) call_onValidationErrors
         (nullish_coalesce (_errors V) []),
       Abrupt (ThrownSafeActionError
                 (new_SafeActionError
                    (or_string (join ", " after) "Validation failed")
                    validation
                    (Some (ValidationTree (tree_after_callback V after))))))
| run_validation_callback_raised result V error run :
    action actionInput = Resolved result →
    truthy_string (result_serverError result) = None →
    truthy_object (result_validationErrors result) = Some V →
    raises "onValidationErrors" (onValidationErrors callbacks)
      (nullish_coalesce (_errors V) []) error →
    Caught callbacks
      (invocation (onValidationErrors callbacks) call_onValidationErrors
         (nullish_coalesce (_errors V) []))
      error run →
    Run action actionInput callbacks run
| run_rejected reason run :
    action actionInput = Rejected reason →
    Caught callbacks [] reason run →
    Run action actionInput callbacks run.

(** ** Sample inputs taken from the test-suite *)

(** A [vi.fn()] mock: records the call, returns, changes nothing. *)
Definition mock {A} : Callback A := callable (λ a, (a, Returns)).

(** A callback that throws [error] whatever it is given. *)
Definition throwing {A} (error : Thrown) : Callback A :=
  callable (λ a, (a, Throws error)).

Definition all_callbacks : Callbacks := mkCallbacks mock mock mock.
Definition no_callbacks : Callbacks := mkCallbacks absent absent absent.

(** [{ id: 1, message: "Success!" }] *)
Definition mockData : JsValue :=
  JObj [("id", JNum 1); ("message", JStr "Success!")].

(** [new Error("Network failure")] *)
Definition networkFailure : JsError := new_Error "Network failure".

(** An action that settles the same way whatever its input. *)
Definition always (s : Settled) : JsValue → Settled := λ _, s.

(** * Properties *)

(** ** Helper facts about the primitives *)

Lemma truthy_string_nonempty (S : string) :
  S ≠ "" → truthy_string (present S) = Some S.
Proof.
  intros HS. unfold truthy_string.
  destruct (String.eqb_spec S "") as [->|_]; [contradiction | reflexivity].
Qed.

Lemma truthy_string_empty : truthy_string (present "") = None.
Proof. reflexivity. Qed.

Lemma nullish_data (v : JsValue) :
  is_undefined v || is_null v = true ↔ v = JUndefined ∨ v = JNull.
Proof.
  split.
  - destruct v; simpl; intros H; try discriminate; auto.
  - intros [-> | ->]; reflexivity.
Qed.

Lemma non_nullish_data (v : JsValue) :
  v ≠ JUndefined → v ≠ JNull → is_undefined v || is_null v = false.
Proof. destruct v; simpl; intros; congruence. Qed.

(** ** Helper facts about one call *)

(** A call that returns leaves its log entry and hands back the argument
    as the callback left it. *)
Lemma optional_call_returns {A} callee (callback : Callback A) record a :
  returns_normally callback a →
  optional_call callee callback record a =
    (invocation callback record a, Normal (argument_after callback a)).
Proof.
  destruct callback as [| | f]; simpl; [done | done |].
  destruct (f a) as [after completion]. simpl. by intros ->.
Qed.

Lemma argument_after_unchanged {A} (callback : Callback A) a :
  leaves_unchanged callback a → argument_after callback a = a.
Proof. by destruct callback. Qed.

(** A call that does not return: the value is not callable, or the
    function throws. *)
Lemma optional_call_not_returning {A} callee (callback : Callback A) record a :
  ¬ returns_normally callback a →
  ∃ error,
    optional_call callee callback record a =
      (invocation callback record a, Abrupt error)
    ∧ (callback = uncallable
         ∧ error = ThrownError (TypeError_not_a_function callee)
       ∨ ∃ f, callback = callable f ∧ (f a).2 = Throws error).
Proof.
  destruct callback as [| | f]; simpl.
  - intros Hnot. by destruct Hnot.
  - intros _. eexists. split; [reflexivity |]. left. by split.
  - destruct (f a) as [after [| error]] eqn:Hf; simpl.
    + intros Hnot. by destruct Hnot.
    + intros _. exists error. split; [reflexivity |].
      right. exists f. by rewrite Hf.
Qed.

Lemma returns_normally_dec {A} (callback : Callback A) a :
  returns_normally callback a ∨ ¬ returns_normally callback a.
Proof.
  destruct callback as [| | f]; simpl.
  - by left.
  - right. tauto.
  - destruct (f a).2; [by left | right; discriminate].
Qed.

(** Every way [optional_call] can go. *)
Lemma optional_call_cases {A} callee (callback : Callback A) record a :
  (optional_call callee callback record a =
     (invocation callback record a, Normal (argument_after callback a))
   ∧ returns_normally callback a)
  ∨ (∃ error, optional_call callee callback record a =
                (invocation callback record a, Abrupt error)
              ∧ ¬ returns_normally callback a
              ∧ (callback = uncallable
                   ∧ error = ThrownError (TypeError_not_a_function callee)
                 ∨ ∃ f, callback = callable f ∧ (f a).2 = Throws error)).
Proof.
  destruct (returns_normally_dec callback a) as [Hret | Hnot].
  - left. by rewrite (optional_call_returns callee callback record a Hret).
  - right. destruct (optional_call_not_returning callee callback record a Hnot)
      as (error & ? & ?). eauto.
Qed.

(** ** Helper facts about [try_block], [catch_block] and [queryFn] *)

(** The [try] body once the promise resolved. *)
Lemma try_block_resolved action actionInput callbacks result :
  action actionInput = Resolved result →
  try_block action actionInput callbacks =
    match truthy_string (result_serverError result) with
    | Some msg =>
        optional_call "onServerError" (onServerError callbacks)
                      call_onServerError msg;;
        throw (ThrownSafeActionError (new_SafeActionError msg server None))
    | None =>
      match truthy_object (result_validationErrors result) with
      | Some V =>
          errors ← optional_call "onValidationErrors"
                     (onValidationErrors callbacks) call_onValidationErrors
                     (nullish_coalesce (_errors V) []);
          throw (ThrownSafeActionError
                   (new_SafeActionError
                      (or_string (join ", " errors) "Validation failed")
                      validation
                      (Some (ValidationTree (tree_after_callback V errors)))))
      | None =>
          if is_undefined (result_data result) || is_null (result_data result)
          then ([], Abrupt (ThrownSafeActionError
                              (new_SafeActionError
                                 "No data returned from action" server None)))
          else ([], Normal (result_data result))
      end
    end.
Proof.
  intros Hres. unfold try_block. rewrite Hres. simpl.
  destruct (truthy_string (result_serverError result)) as [msg|].
  { by destruct (optional_call _ _ _ _) as [log [[]|]]. }
  destruct (truthy_object (result_validationErrors result)) as [V|].
  { by destruct (optional_call _ _ _ _) as [log [|]]. }
  by destruct (is_undefined (result_data result)
               || is_null (result_data result)).
Qed.

Lemma try_block_rejected action actionInput callbacks reason :
  action actionInput = Rejected reason →
  try_block action actionInput callbacks = ([], Abrupt reason).
Proof. intros Hrej. unfold try_block. rewrite Hrej. reflexivity. Qed.

(** A [SafeActionError] thrown inside the [try] leaves [queryFn] as it is. *)
Lemma queryFn_passes_SafeActionError action actionInput callbacks log e :
  try_block action actionInput callbacks =
    (log, Abrupt (ThrownSafeActionError e)) →
  queryFn action actionInput callbacks =
    (log, Abrupt (ThrownSafeActionError e)).
Proof.
  intros Htry. unfold queryFn, try_catch. rewrite Htry. simpl.
  by rewrite app_nil_r.
Qed.

Lemma queryFn_normal action actionInput callbacks log d :
  try_block action actionInput callbacks = (log, Normal d) →
  queryFn action actionInput callbacks = (log, Normal d).
Proof. intros Htry. unfold queryFn, try_catch. by rewrite Htry. Qed.

(** Whatever else was thrown inside the [try] goes through [catch_block]. *)
Lemma queryFn_caught action actionInput callbacks log error :
  try_block action actionInput callbacks = (log, Abrupt error) →
  queryFn action actionInput callbacks =
    (log ++ (catch_block callbacks error).1,
     (catch_block callbacks error).2).
Proof.
  intros Htry. unfold queryFn, try_catch. rewrite Htry.
  by destruct (catch_block callbacks error).
Qed.


(** The second branch of the [catch] clause when [onNetworkError] returns. *)
Lemma catch_block_wraps callbacks error :
  instanceof_SafeActionError error = false →
  let networkError :=
    match error with
    | ThrownError e => e
    | _ => new_Error "Unknown error occurred"
    end in
  returns_normally (onNetworkError callbacks) networkError →
  let after := argument_after (onNetworkError callbacks) networkError in
  catch_block callbacks error =
    (invocation (onNetworkError callbacks) call_onNetworkError networkError,
     Abrupt (ThrownSafeActionError
               (new_SafeActionError
                  ("Network error: " +:+ err_message after)
                  network (Some (CaughtError after))))).
Proof.
  intros Hinst networkError Hret after. unfold catch_block. rewrite Hinst.
  fold networkError.
  rewrite (optional_call_returns "onNetworkError" _ call_onNetworkError
             _ Hret).
  simpl. by rewrite app_nil_r.
Qed.

(** With neither error field populated only the [data] check remains. *)
Lemma queryFn_without_errors action actionInput callbacks result :
  action actionInput = Resolved result →
  truthy_string (result_serverError result) = None →
  truthy_object (result_validationErrors result) = None →
  queryFn action actionInput callbacks =
    if is_undefined (result_data result) || is_null (result_data result)
    then ([], Abrupt (ThrownSafeActionError
                        (new_SafeActionError "No data returned from action"
                           server None)))
    else ([], Normal (result_data result)).
Proof.
  intros Hres Hserver Hvalidation.
  destruct (is_undefined (result_data result) || is_null (result_data result))
    eqn:Hdata.
  - apply queryFn_passes_SafeActionError.
    rewrite (try_block_resolved _ _ _ _ Hres).
    by rewrite Hserver, Hvalidation, Hdata.
  - apply queryFn_normal.
    rewrite (try_block_resolved _ _ _ _ Hres).
    by rewrite Hserver, Hvalidation, Hdata.
Qed.

(** A populated [serverError] whose callback returns. *)
Lemma queryFn_server_error action actionInput callbacks result msg :
  action actionInput = Resolved result →
  truthy_string (result_serverError result) = Some msg →
  returns_normally (onServerError callbacks) msg →
  queryFn action actionInput callbacks =
    (invocation (onServerError callbacks) call_onServerError msg,
     Abrupt (ThrownSafeActionError (new_SafeActionError msg server None))).
Proof.
  intros Hres Hserver Hret. apply queryFn_passes_SafeActionError.
  rewrite (try_block_resolved _ _ _ _ Hres), Hserver.
  rewrite (optional_call_returns "onServerError" _ call_onServerError _ Hret).
  simpl. by rewrite app_nil_r.
Qed.

(** A populated [validationErrors] whose callback returns. *)
Lemma queryFn_validation_error action actionInput callbacks result V :
  action actionInput = Resolved result →
  truthy_string (result_serverError result) = None →
  truthy_object (result_validationErrors result) = Some V →
  let errors := nullish_coalesce (_errors V) [] in
  returns_normally (onValidationErrors callbacks) errors →
  let after := argument_after (onValidationErrors callbacks) errors in
  queryFn action actionInput callbacks =
    (invocation (onValidationErrors callbacks) call_onValidationErrors errors,
     Abrupt (ThrownSafeActionError
               (new_SafeActionError
                  (or_string (join ", " after) "Validation failed")
                  validation
                  (Some (ValidationTree (tree_after_callback V after)))))).
Proof.
  intros Hres Hserver HV errors Hret after.
  apply queryFn_passes_SafeActionError.
  rewrite (try_block_resolved _ _ _ _ Hres), Hserver, HV.
  fold errors.
  rewrite (optional_call_returns "onValidationErrors" _
             call_onValidationErrors _ Hret).
  simpl. by rewrite app_nil_r.
Qed.

Lemma tree_after_callback_unchanged V :
  tree_after_callback V (nullish_coalesce (_errors V) []) = V.
Proof. by destruct V as [[| | errors] fields]. Qed.

(** Every way the [catch] clause can go. *)
Lemma catch_block_cases callbacks error :
  let networkError :=
    match error with
    | ThrownError e => e
    | _ => new_Error "Unknown error occurred"
    end in
  (instanceof_SafeActionError error = true
   ∧ catch_block callbacks error = ([], Abrupt error))
  ∨ (instanceof_SafeActionError error = false
     ∧ returns_normally (onNetworkError callbacks) networkError
     ∧ catch_block callbacks error =
         (invocation (onNetworkError callbacks) call_onNetworkError
            networkError,
          Abrupt (ThrownSafeActionError
                    (new_SafeActionError
                       ("Network error: "
                        +:+ err_message
                              (argument_after (onNetworkError callbacks)
                                 networkError))
                       network
                       (Some (CaughtError
                                (argument_after (onNetworkError callbacks)
                                   networkError)))))))
  ∨ (instanceof_SafeActionError error = false
     ∧ ¬ returns_normally (onNetworkError callbacks) networkError
     ∧ ∃ error',
         catch_block callbacks error =
           (invocation (onNetworkError callbacks) call_onNetworkError
              networkError,
            Abrupt error')
         ∧ (onNetworkError callbacks = uncallable
              ∧ error' = ThrownError (TypeError_not_a_function "onNetworkError")
            ∨ ∃ f, onNetworkError callbacks = callable f
                   ∧ (f networkError).2 = Throws error')).
Proof.
  intros networkError.
  destruct (instanceof_SafeActionError error) eqn:Hinst.
  { left. split; [reflexivity |]. unfold catch_block. by rewrite Hinst. }
  right.
  destruct (returns_normally_dec (onNetworkError callbacks) networkError)
    as [Hret | Hnot].
  - left. split; [reflexivity |]. split; [exact Hret |].
    apply (catch_block_wraps callbacks error Hinst Hret).
  - right. split; [reflexivity |]. split; [exact Hnot |].
    destruct (optional_call_not_returning "onNetworkError" _
                call_onNetworkError _ Hnot) as (error' & Hcall & Hwhy).
    exists error'. split; [| exact Hwhy].
    unfold catch_block. rewrite Hinst. fold networkError.
    by rewrite Hcall.
Qed.


(** ** C1: a populated [serverError] wins over every other field *)




(** ** C2: the retry policy *)

(** C2. For every attempt count [n] and every [SafeActionError] [e],
    [retry] is [false] for type [validation], [false] for type [server],
    and for type [network] it is [true] exactly when [n < 3]; the four
    sample points of the specification follow. *)
Theorem retry_policy (n : nat) (e : SafeActionError) :
  (type e = validation → retry n (ThrownSafeActionError e) = false)
  ∧ (type e = server → retry n (ThrownSafeActionError e) = false)
  ∧ (type e = network →
     (retry n (ThrownSafeActionError e) = true ↔ (n < 3)%nat))
  ∧ (∀ m d,
       retry 0 (ThrownSafeActionError (new_SafeActionError m validation d))
         = false
       ∧ retry 0 (ThrownSafeActionError (new_SafeActionError m server d))
         = false
       ∧ retry 2 (ThrownSafeActionError (new_SafeActionError m network d))
         = true
       ∧ retry 3 (ThrownSafeActionError (new_SafeActionError m network d))
         = false).
Proof.
  unfold retry, is_SafeActionError_of_type.
  split; [by intros -> |]. split; [by intros -> |]. split.
  - intros ->. simpl. apply bool_decide_eq_true.
  - intros m d. by repeat split.
Qed.

Lemma retry_policy_witness :
  retry 0 (ThrownSafeActionError
             (new_SafeActionError "Invalid input" validation None)) = false
  ∧ retry 0 (ThrownSafeActionError
               (new_SafeActionError "Internal server error" server None))
    = false
  ∧ retry 2 (ThrownSafeActionError
               (new_SafeActionError "Network error: Network failure" network
                  (Some (CaughtError networkFailure)))) = true.
Proof.
  split; [| split].
  - destruct (retry_policy 0
                (new_SafeActionError "Invalid input" validation None))
      as (Hvalidation & _).
    apply Hvalidation. reflexivity.
  - destruct (retry_policy 0
                (new_SafeActionError "Internal server error" server None))
      as (_ & Hserver & _).
    apply Hserver. reflexivity.
  - destruct (retry_policy 2
                (new_SafeActionError "Network error: Network failure" network
                   (Some (CaughtError networkFailure))))
      as (_ & _ & Hnetwork & _).
    apply Hnetwork; [reflexivity | lia].
Defined.

(** ** C3: validation errors *)







(** ** C4: rejections *)




(** ** C5: absent data *)

(** C5. For every resolved outcome with neither [serverError] nor
    [validationErrors] populated whose [data] is [undefined] (not present)
    or [null], [queryFn] fails with a [SafeActionError] of type [server],
    message ["No data returned from action"] and no details, invoking no
    callback; [retry] refuses that error at every attempt count. *)
Theorem missing_data_is_server_error
    action actionInput callbacks (o : ActionOutcome) :
  action actionInput = Resolved (present o) →
  truthy_string (serverError o) = None →
  truthy_object (validationErrors o) = None →
  data o = JUndefined ∨ data o = JNull →
  let e := new_SafeActionError "No data returned from action" server None in
  queryFn action actionInput callbacks = ([], Abrupt (ThrownSafeActionError e))
  ∧ ∀ n, retry n (ThrownSafeActionError e) = false.
Proof.
  intros Hres Hserver Hvalidation Hdata e. split; [| reflexivity].
  rewrite (queryFn_without_errors _ _ _ _ Hres Hserver Hvalidation). simpl.
  apply nullish_data in Hdata. by rewrite Hdata.
Qed.

(** The outcome [{ data: null }] of the test-suite. *)
Lemma missing_data_is_server_error_witness :
  let o := {| data := JNull; serverError := undefined;
              validationErrors := undefined |} in
  let e := new_SafeActionError "No data returned from action" server None in
  queryFn (always (Resolved (present o))) JNull all_callbacks =
    ([], Abrupt (ThrownSafeActionError e))
  ∧ ∀ n, retry n (ThrownSafeActionError e) = false.
Proof.
  intros o.
  apply (missing_data_is_server_error
           (always (Resolved (present o))) JNull all_callbacks o);
    [reflexivity | reflexivity | reflexivity | right; reflexivity].
Defined.

(** ** C6: the re-throw branch of the [catch] clause *)

(** [rethrow_branch_taken] agrees with [catch_block]: it holds exactly when
    the [try] body threw something that the handler throws again as it is;
    the other branch never does that. *)
Lemma rethrow_branch_taken_spec action actionInput callbacks :
  rethrow_branch_taken action actionInput callbacks = true ↔
  ∃ log error,
    try_block action actionInput callbacks = (log, Abrupt error)
    ∧ instanceof_SafeActionError error = true
    ∧ catch_block callbacks error = throw error.
Proof.
  unfold rethrow_branch_taken, catch_block.
  destruct (try_block action actionInput callbacks) as [log [d | error]].
  - split; [discriminate | intros (? & ? & [=] & _)].
  - split.
    + intros Hinst. exists log, error. by rewrite Hinst.
    + by intros (log' & error' & [= <- <-] & Hinst & _).
Qed.

(** What [optional_call] followed by a [throw] of a [SafeActionError] ends
    with: a [SafeActionError] exactly when the call returns or the
    callback throws one itself. *)
Lemma call_then_throw_classified {A} callee (callback : Callback A) record a
    (k : A → SafeActionError) :
  match (a' ← optional_call callee callback record a;
         (throw (ThrownSafeActionError (k a')) : Eff JsValue)).2 with
  | Abrupt error => instanceof_SafeActionError error = true
  | Normal _ => False
  end ↔ returns_or_throws_classified callback a.
Proof.
  destruct callback as [| | f]; simpl; [done | done |].
  destruct (f a) as [after [| error]]; simpl; done.
Qed.

Lemma rethrow_branch_taken_prop action actionInput callbacks :
  rethrow_branch_taken action actionInput callbacks = true ↔
  match (try_block action actionInput callbacks).2 with
  | Abrupt error => instanceof_SafeActionError error = true
  | Normal _ => False
  end.
Proof.
  unfold rethrow_branch_taken.
  by destruct (try_block action actionInput callbacks) as [log [d | error]].
Qed.

(** When the promise resolved, the [try] body ends with a [SafeActionError]
    exactly in these cases. *)
Lemma try_block_classified action actionInput callbacks result :
  action actionInput = Resolved result →
  match (try_block action actionInput callbacks).2 with
  | Abrupt error => instanceof_SafeActionError error = true
  | Normal _ => False
  end ↔
  match truthy_string (result_serverError result),
        truthy_object (result_validationErrors result) with
  | Some msg, _ => returns_or_throws_classified (onServerError callbacks) msg
  | None, Some V =>
      returns_or_throws_classified (onValidationErrors callbacks)
        (nullish_coalesce (_errors V) [])
  | None, None =>
      result_data result = JUndefined ∨ result_data result = JNull
  end.
Proof.
  intros Hres. rewrite (try_block_resolved _ _ _ _ Hres).
  destruct (truthy_string (result_serverError result)) as [msg|].
  { apply (call_then_throw_classified "onServerError" _ call_onServerError msg
             (λ _, new_SafeActionError msg server None)). }
  destruct (truthy_object (result_validationErrors result)) as [V|].
  { apply (call_then_throw_classified "onValidationErrors" _
             call_onValidationErrors _
             (λ errors, new_SafeActionError
                          (or_string (join ", " errors) "Validation failed")
                          validation
                          (Some (ValidationTree
                                   (tree_after_callback V errors))))). }
  rewrite <- nullish_data.
  destruct (is_undefined (result_data result) || is_null (result_data result));
    simpl; split; done.
Qed.

(** C6, as stated, fails: the errors raised by the classification are raised
    inside the [try], so the [catch] clause sees them and its first branch is
    what lets them through. Already a plain server error exercises it. *)
Lemma rethrow_branch_exercised_by_server_error :
  let o := {| data := JUndefined;
              serverError := present "Server error occurred";
              validationErrors := undefined |} in
  rethrow_branch_taken (always (Resolved (present o))) JNull no_callbacks
  = true.
Proof. reflexivity. Qed.

(** C6, amended. The re-throw branch is exercised exactly when the [try]
    body raises a [SafeActionError]: for a rejection, when the rejected
    value is itself a [SafeActionError]; for a resolved outcome (or a
    nullish result), when [serverError] is populated and [onServerError]
    (if supplied) returns or itself throws a [SafeActionError], or else
    [validationErrors] is populated and the same holds of
    [onValidationErrors], or else [data] is absent. It is not exercised on
    success, on any other rejection, or when a callback called inside the
    [try] raises something else. When exercised it propagates the error
    unchanged: no callback is added and nothing is wrapped again. *)
Theorem rethrow_branch_reachability action actionInput callbacks :
  (rethrow_branch_taken action actionInput callbacks = true ↔
     (∃ e, action actionInput = Rejected (ThrownSafeActionError e))
     ∨ (∃ result, action actionInput = Resolved result
          ∧ match truthy_string (result_serverError result),
                  truthy_object (result_validationErrors result) with
            | Some msg, _ =>
                returns_or_throws_classified (onServerError callbacks) msg
            | None, Some V =>
                returns_or_throws_classified (onValidationErrors callbacks)
                  (nullish_coalesce (_errors V) [])
            | None, None =>
                result_data result = JUndefined ∨ result_data result = JNull
            end))
  ∧ (rethrow_branch_taken action actionInput callbacks = true →
     queryFn action actionInput callbacks =
       try_block action actionInput callbacks
     ∧ ∃ e, (queryFn action actionInput callbacks).2
            = Abrupt (ThrownSafeActionError e)).
Proof.
  split.
  - rewrite rethrow_branch_taken_prop.
    destruct (action actionInput) as [result | reason] eqn:Hsettled.
    + rewrite (try_block_classified _ _ _ _ Hsettled). split.
      * intros Hcase. right. by exists result.
      * intros [[e He] | (result' & [= <-] & Hcase)]; [discriminate | done].
    + rewrite (try_block_rejected _ _ _ _ Hsettled). simpl. split.
      * destruct reason as [e | |]; try discriminate. intros _. left. eauto.
      * intros [[e [= ->]] | (result & Heq & _)]; [done | discriminate].
  - intros Htaken. apply rethrow_branch_taken_spec in Htaken
      as (log & error & Htry & Hinst & _).
    destruct error as [e | |]; try discriminate.
    rewrite (queryFn_passes_SafeActionError _ _ _ _ _ Htry). eauto.
Qed.

(** A validation failure goes through the re-throw branch. *)
Lemma rethrow_branch_reachability_witness :
  let V := mkValidationErrors (present ["Invalid input"]) [] in
  let o := {| data := JUndefined; serverError := undefined;
              validationErrors := present V |} in
  rethrow_branch_taken (always (Resolved (present o))) JNull all_callbacks
  = true
  ∧ queryFn (always (Resolved (present o))) JNull all_callbacks =
      try_block (always (Resolved (present o))) JNull all_callbacks.
Proof.
  intros V o.
  destruct (rethrow_branch_reachability
              (always (Resolved (present o))) JNull all_callbacks)
    as [Hiff Hunchanged].
  assert (Htaken : rethrow_branch_taken (always (Resolved (present o)))
                     JNull all_callbacks = true).
  { apply Hiff. right. exists (present o). split; [reflexivity |].
    simpl. exact I. }
  split; [exact Htaken | apply (Hunchanged Htaken)].
Defined.

(** ** C7: success *)

(** C7. For every resolved outcome with neither [serverError] nor
    [validationErrors] populated and a [data] that is neither [undefined]
    nor [null], [queryFn] completes normally with exactly that [data] and
    invokes no callback. *)
Theorem success_returns_data_unchanged
    action actionInput callbacks (o : ActionOutcome) :
  action actionInput = Resolved (present o) →
  truthy_string (serverError o) = None →
  truthy_object (validationErrors o) = None →
  data o ≠ JUndefined →
  data o ≠ JNull →
  queryFn action actionInput callbacks = ([], Normal (data o)).
Proof.
  intros Hres Hserver Hvalidation Hundef Hnull.
  rewrite (queryFn_without_errors _ _ _ _ Hres Hserver Hvalidation). simpl.
  by rewrite non_nullish_data.
Qed.

(** The outcome [{ data: { id: 1, message: "Success!" } }]. *)
Lemma success_returns_data_unchanged_witness :
  queryFn
    (always (Resolved (present {| data := mockData; serverError := undefined;
                                  validationErrors := undefined |})))
    (JObj [("test", JStr "input")]) all_callbacks
  = ([], Normal (JObj [("id", JNum 1); ("message", JStr "Success!")])).
Proof.
  apply (success_returns_data_unchanged
           (always (Resolved (present {| data := mockData;
                                         serverError := undefined;
                                         validationErrors := undefined |})))
           (JObj [("test", JStr "input")]) all_callbacks
           {| data := mockData; serverError := undefined;
              validationErrors := undefined |});
    [reflexivity | reflexivity | reflexivity | discriminate | discriminate].
Defined.

(** ** C9: an empty [serverError] string *)

(** The [try] body reads [serverError] through its truthiness only. *)
Lemma try_block_serverError_falsy action actionInput callbacks o o' :
  action actionInput = Resolved (present o) →
  truthy_string (serverError o) = None →
  truthy_string (serverError o') = None →
  validationErrors o' = validationErrors o →
  data o' = data o →
  try_block action actionInput callbacks =
    try_block (always (Resolved (present o'))) actionInput callbacks.
Proof.
  intros Hres Hfalsy Hfalsy' HV Hdata.
  rewrite (try_block_resolved _ _ _ _ Hres).
  rewrite (try_block_resolved (always (Resolved (present o'))) _ _
             (present o') eq_refl).
  simpl. by rewrite Hfalsy, Hfalsy', HV, Hdata.
Qed.

(** A run whose [try] body is one call followed by the [throw] of a
    [SafeActionError]: the error passes when the call returns, and what
    the call raises goes through the [catch] clause. *)
Lemma queryFn_call_then_throw {A} action actionInput callbacks callee
    (callback : Callback A) record a (k : A → SafeActionError) :
  try_block action actionInput callbacks =
    (a' ← optional_call callee callback record a;
     throw (ThrownSafeActionError (k a'))) →
  queryFn action actionInput callbacks =
    match optional_call callee callback record a with
    | (log, Normal after) => (log, Abrupt (ThrownSafeActionError (k after)))
    | (log, Abrupt error) =>
        (log ++ (catch_block callbacks error).1,
         (catch_block callbacks error).2)
    end.
Proof.
  intros Htry.
  destruct (optional_call callee callback record a) as [log [after | error]];
    simpl in Htry.
  - apply queryFn_passes_SafeActionError. by rewrite app_nil_r in Htry.
  - by apply queryFn_caught.
Qed.

Lemma optional_call_log {A} callee (callback : Callback A) record a :
  (optional_call callee callback record a).1 = invocation callback record a.
Proof.
  destruct callback as [| | f]; simpl; try done.
  by destruct (f a) as [after completion].
Qed.

Lemma elem_of_invocation {A} (callback : Callback A) record a c :
  c ∈ invocation callback record a →
  c = record a ∧ ∃ f, callback = callable f.
Proof.
  destruct callback as [| | f]; simpl.
  - by intros ?%elem_of_nil.
  - by intros ?%elem_of_nil.
  - rewrite list_elem_of_singleton. eauto.
Qed.

(** The [catch] clause calls nothing but [onNetworkError]. *)
Lemma catch_block_log callbacks error c :
  c ∈ (catch_block callbacks error).1 →
  ∃ e f, c = call_onNetworkError e ∧ onNetworkError callbacks = callable f.
Proof.
  unfold catch_block. destruct (instanceof_SafeActionError error).
  { by intros ?%elem_of_nil. }
  simpl.
  pose proof (optional_call_log "onNetworkError" (onNetworkError callbacks)
                call_onNetworkError
                match error with
                | ThrownError e => e
                | _ => new_Error "Unknown error occurred"
                end) as Hlog.
  destruct (optional_call _ _ _ _) as [log [after | error']];
    simpl in *; subst log; rewrite ?app_nil_r;
    intros [-> [f ?]]%elem_of_invocation; eauto.
Qed.

(** What a [SafeActionError] leaving the [catch] clause can be. *)
Lemma catch_block_SafeActionError callbacks error e :
  (catch_block callbacks error).2 = Abrupt (ThrownSafeActionError e) →
  error = ThrownSafeActionError e
  ∨ type e = network
  ∨ ∃ f a, onNetworkError callbacks = callable f
           ∧ (f a).2 = Throws (ThrownSafeActionError e).
Proof.
  destruct (catch_block_cases callbacks error)
    as [[Hinst ->] | [(_ & _ & ->) | (_ & _ & error' & -> & Hwhy)]];
    simpl.
  - intros [= ->]. by left.
  - intros [= <-]. right. by left.
  - intros [= ->]. destruct Hwhy as [[_ ?] | (f & ? & ?)]; [done |].
    right. right. eauto.
Qed.

(** C9. For every resolved outcome whose [serverError] is the empty string,
    [queryFn] behaves as on the same outcome without [serverError]: it never
    invokes [onServerError], and whenever it fails with type [server] the
    failure is the missing-data one, unless a callback threw that very
    error. So [{ serverError: "", data: d }] with [d] neither [undefined]
    nor [null] succeeds with [d], and [{ serverError: "" }] alone fails
    with ["No data returned from action"]. *)
Theorem empty_serverError_falls_through
    action actionInput callbacks (o : ActionOutcome) :
  action actionInput = Resolved (present o) →
  serverError o = present "" →
  let run := queryFn action actionInput callbacks in
  let no_data :=
    new_SafeActionError "No data returned from action" server None in
  run = queryFn
          (always (Resolved (present {| data := data o;
                                        serverError := undefined;
                                        validationErrors :=
                                          validationErrors o |})))
          actionInput callbacks
  ∧ (∀ s, call_onServerError s ∉ run.1)
  ∧ (∀ e, run.2 = Abrupt (ThrownSafeActionError e) → type e = server →
          e = no_data
          ∨ (∃ f a, onValidationErrors callbacks = callable f
                    ∧ (f a).2 = Throws (ThrownSafeActionError e))
          ∨ (∃ f a, onNetworkError callbacks = callable f
                    ∧ (f a).2 = Throws (ThrownSafeActionError e)))
  ∧ (truthy_object (validationErrors o) = None →
     data o ≠ JUndefined → data o ≠ JNull →
     run = ([], Normal (data o)))
  ∧ (truthy_object (validationErrors o) = None →
     data o = JUndefined ∨ data o = JNull →
     run = ([], Abrupt (ThrownSafeActionError no_data))).
Proof.
  intros Hres Hempty run no_data.
  assert (Hfalsy : truthy_string (serverError o) = None)
    by (by rewrite Hempty).
  pose proof (try_block_resolved _ _ callbacks _ Hres) as Htry.
  simpl in Htry. rewrite Hfalsy in Htry.
  split; [| split; [| split; [| split]]].
  - unfold run, queryFn.
    by rewrite (try_block_serverError_falsy _ _ _ o
                  {| data := data o; serverError := undefined;
                     validationErrors := validationErrors o |} Hres Hfalsy).
  - intros s. unfold run.
    destruct (truthy_object (validationErrors o)) as [V|] eqn:HV.
    + rewrite (queryFn_call_then_throw _ _ _ _ _ _ _ _ Htry).
      pose proof (optional_call_log "onValidationErrors"
                    (onValidationErrors callbacks) call_onValidationErrors
                    (nullish_coalesce (_errors V) [])) as Hlog.
      destruct (optional_call _ _ _ _) as [log [after | error]];
        simpl in *; subst log.
      * by intros [[=] _]%elem_of_invocation.
      * rewrite elem_of_app.
        intros [[[=] _]%elem_of_invocation
               | (e & f & [=] & _)%catch_block_log].
    + rewrite (queryFn_without_errors _ _ _ _ Hres Hfalsy HV). simpl.
      destruct (is_undefined (data o) || is_null (data o)); simpl;
        apply not_elem_of_nil.
  - intros e. unfold run.
    destruct (truthy_object (validationErrors o)) as [V|] eqn:HV.
    + rewrite (queryFn_call_then_throw _ _ _ _ _ _ _ _ Htry).
      destruct (optional_call_cases "onValidationErrors"
                  (onValidationErrors callbacks) call_onValidationErrors
                  (nullish_coalesce (_errors V) []))
        as [[-> _] | (error & -> & _ & Hwhy)]; simpl.
      * intros [= <-]. discriminate.
      * intros [-> | [Hnetwork | Hthrown]]%catch_block_SafeActionError Hserver.
        -- destruct Hwhy as [[_ ?] | (f & ? & ?)]; [done |].
           right. left. eauto.
        -- congruence.
        -- by right; right.
    + rewrite (queryFn_without_errors _ _ _ _ Hres Hfalsy HV). simpl.
      destruct (is_undefined (data o) || is_null (data o)); simpl.
      * intros [= <-] _. by left.
      * discriminate.
  - intros Hvalidation Hundef Hnull. unfold run.
    rewrite (queryFn_without_errors _ _ _ _ Hres Hfalsy Hvalidation). simpl.
    by rewrite non_nullish_data.
  - intros Hvalidation Hdata. unfold run.
    rewrite (queryFn_without_errors _ _ _ _ Hres Hfalsy Hvalidation). simpl.
    apply nullish_data in Hdata. by rewrite Hdata.
Qed.

(** [{ serverError: "", data: mockData }] succeeds with [mockData]. *)
Lemma empty_serverError_falls_through_witness :
  queryFn
    (always (Resolved (present {| data := mockData;
                                  serverError := present "";
                                  validationErrors := undefined |})))
    JNull all_callbacks
  = ([], Normal mockData).
Proof.
  destruct (empty_serverError_falls_through
              (always (Resolved (present {| data := mockData;
                                            serverError := present "";
                                            validationErrors := undefined |})))
              JNull all_callbacks
              {| data := mockData; serverError := present "";
                 validationErrors := undefined |}
              eq_refl eq_refl)
    as (_ & _ & _ & Hsuccess & _).
  apply Hsuccess; [reflexivity | discriminate | discriminate].
Defined.

(** ** C10: a nullish result *)

(** C10. When the action resolves to [undefined] or [null], the optional
    chaining reads every field as [undefined], no check raises a raw error,
    and [queryFn] fails with the [SafeActionError] of type [server] and
    message ["No data returned from action"], invoking no callback. *)
Theorem nullish_result_is_classified
    action actionInput callbacks (result : Optional ActionOutcome) :
  action actionInput = Resolved result →
  result = undefined ∨ result = null →
  queryFn action actionInput callbacks =
    ([], Abrupt (ThrownSafeActionError
                   (new_SafeActionError "No data returned from action"
                      server None))).
Proof.
  intros Hres Hnullish.
  rewrite (queryFn_without_errors _ _ _ _ Hres);
    by destruct Hnullish as [-> | ->].
Qed.

Lemma nullish_result_is_classified_witness :
  queryFn (always (Resolved null)) JNull all_callbacks =
    ([], Abrupt (ThrownSafeActionError
                   (new_SafeActionError "No data returned from action"
                      server None))).
Proof.
  apply (nullish_result_is_classified
           (always (Resolved null)) JNull all_callbacks null);
    [reflexivity | right; reflexivity].
Defined.

(** ** C8: option composition *)

Lemma lookup_queryOptions (options : gmap string PropValue) (k : string) :
  k ∉ hook_keys → queryOptions options !! k = options !! k.
Proof.
  unfold hook_keys, queryOptions. intros Hk.
  repeat (apply not_elem_of_cons in Hk as [? Hk]).
  by rewrite !lookup_delete_ne.
Qed.

Local Ltac not_hook_key :=
  unfold hook_keys;
  repeat (apply not_elem_of_cons; split; [discriminate |]);
  apply not_elem_of_nil.

(** C8. Whatever [options] the caller supplies, the object handed to the
    query engine has [staleTime = 30000] and [throwOnError = false] when the
    caller did not set them, carries the caller's own value for either
    setting when it did, and carries every other caller-supplied engine
    option (any property besides the four the hook keeps for itself)
    unchanged. *)
Theorem option_composition
    queryKey action (options : gmap string PropValue) :
  ∃ handed : gmap string PropValue,
    (∀ (QueryResult : Type) (useQuery : gmap string PropValue → QueryResult),
       useSafeActionQuery useQuery queryKey action options = useQuery handed)
    ∧ (options !! "staleTime" = None →
       handed !! "staleTime" = Some (Data (JNum 30000)))
    ∧ (options !! "throwOnError" = None →
       handed !! "throwOnError" = Some (Data (JBool false)))
    ∧ (∀ v, options !! "staleTime" = Some v →
            handed !! "staleTime" = Some v)
    ∧ (∀ v, options !! "throwOnError" = Some v →
            handed !! "throwOnError" = Some v)
    ∧ (∀ k v, k ∉ hook_keys → options !! k = Some v →
              handed !! k = Some v).
Proof.
  exists (useQuery_options queryKey action options).
  assert (Hpass : ∀ k v, k ∉ hook_keys → options !! k = Some v →
            useQuery_options queryKey action options !! k = Some v).
  { intros k v Hk Hv. unfold useQuery_options, spread.
    apply lookup_union_Some_l. by rewrite lookup_queryOptions. }
  assert (Hstale : "staleTime" ∉ hook_keys) by not_hook_key.
  assert (Hthrow : "throwOnError" ∉ hook_keys) by not_hook_key.
  split; [reflexivity |].
  split; [| split; [| split; [| split]]].
  - intros Hnone. unfold useQuery_options, spread.
    rewrite lookup_union_r by (by rewrite lookup_queryOptions).
    by rewrite lookup_insert_ne, lookup_insert_eq.
  - intros Hnone. unfold useQuery_options, spread.
    rewrite lookup_union_r by (by rewrite lookup_queryOptions).
    by rewrite lookup_insert_eq.
  - intros v. by apply Hpass.
  - intros v. by apply Hpass.
  - exact Hpass.
Qed.

(** The caller of the test-suite passes [enabled: false]; here it also
    overrides [staleTime] and leaves [throwOnError] alone. *)
Lemma option_composition_witness :
  let options : gmap string PropValue :=
    {[ "actionInput" := Data (JObj []);
       "enabled" := Data (JBool false);
       "staleTime" := Data (JNum 0) ]} in
  let handed := useQuery_options [JStr "rq-options"]
                  (always (Resolved undefined)) options in
  handed !! "throwOnError" = Some (Data (JBool false))
  ∧ handed !! "staleTime" = Some (Data (JNum 0))
  ∧ handed !! "enabled" = Some (Data (JBool false)).
Proof.
  intros options handed.
  destruct (option_composition [JStr "rq-options"]
              (always (Resolved undefined)) options)
    as (handed' & Hhanded & _ & Hthrow & Hstale & _ & Hpass).
  assert (handed' = handed) as -> by (symmetry; apply (Hhanded _ id)).
  split; [| split].
  - apply Hthrow. reflexivity.
  - apply Hstale. reflexivity.
  - apply Hpass; [not_hook_key | reflexivity].
Defined.

(** * Further properties of [queryFn], [retry] and the option composition *)

(** ** Every run has one of the shapes of [Run] *)

Lemma raises_of_not_returning {A} callee (callback : Callback A) record a :
  ¬ returns_normally callback a →
  ∃ error,
    optional_call callee callback record a =
      (invocation callback record a, Abrupt error)
    ∧ raises callee callback a error.
Proof.
  intros Hnot.
  destruct (optional_call_not_returning callee callback record a Hnot)
    as (error & Hcall & Hwhy).
  exists error. split; [exact Hcall |].
  by destruct Hwhy as [[-> ->] | (f & -> & Hf)].
Qed.

Lemma catch_block_caught callbacks log error :
  Caught callbacks log error
    (log ++ (catch_block callbacks error).1, (catch_block callbacks error).2).
Proof.
  destruct (instanceof_SafeActionError error) eqn:Hinst.
  { unfold catch_block. rewrite Hinst. simpl. rewrite app_nil_r.
    by constructor. }
  set (networkError := match error with
                       | ThrownError e => e
                       | _ => new_Error "Unknown error occurred"
                       end).
  destruct (returns_normally_dec (onNetworkError callbacks) networkError)
    as [Hret | Hnot].
  - rewrite (catch_block_wraps callbacks error Hinst Hret).
    by eapply caught_wrapped.
  - destruct (raises_of_not_returning "onNetworkError" _ call_onNetworkError
                _ Hnot) as (error' & Hcall & Hraises).
    unfold catch_block. rewrite Hinst. fold networkError. rewrite Hcall.
    simpl. by eapply caught_leaked.
Qed.

Lemma queryFn_run action actionInput callbacks :
  Run action actionInput callbacks (queryFn action actionInput callbacks).
Proof.
  destruct (action actionInput) as [result | reason] eqn:Hsettled.
  - pose proof (try_block_resolved _ _ callbacks _ Hsettled) as Htry.
    destruct (truthy_string (result_serverError result)) as [msg|] eqn:Hmsg.
    { rewrite (queryFn_call_then_throw _ _ _ _ _ _ _ _ Htry).
      destruct (returns_normally_dec (onServerError callbacks) msg)
        as [Hret | Hnot].
      - rewrite (optional_call_returns "onServerError" _ call_onServerError
                   _ Hret).
        by eapply run_server_error.
      - destruct (raises_of_not_returning "onServerError" _
                    call_onServerError _ Hnot) as (error & -> & Hraises).
        eapply run_server_callback_raised; eauto using catch_block_caught. }
    destruct (truthy_object (result_validationErrors result)) as [V|] eqn:HV.
    { rewrite (queryFn_call_then_throw _ _ _ _ _ _ _ _ Htry).
      destruct (returns_normally_dec (onValidationErrors callbacks)
                  (nullish_coalesce (_errors V) [])) as [Hret | Hnot].
      - rewrite (optional_call_returns "onValidationErrors" _
                   call_onValidationErrors _ Hret).
        by eapply run_validation_error.
      - destruct (raises_of_not_returning "onValidationErrors" _
                    call_onValidationErrors _ Hnot)
          as (error & -> & Hraises).
        eapply run_validation_callback_raised;
          eauto using catch_block_caught. }
    rewrite (queryFn_without_errors _ _ _ _ Hsettled Hmsg HV).
    destruct (is_undefined (result_data result)
              || is_null (result_data result)) eqn:Hdata.
    + by eapply run_no_data.
    + by eapply run_success.
  - rewrite (queryFn_caught _ _ _ _ _ (try_block_rejected _ _ _ _ Hsettled)).
    eapply run_rejected; [done |]. apply catch_block_caught.
Qed.

(** Replaces [queryFn action actionInput callbacks] in the goal by each of
    the shapes a run can have. *)
Local Ltac by_run_shape action actionInput callbacks :=
  generalize (queryFn_run action actionInput callbacks);
  generalize (queryFn action actionInput callbacks);
  let run := fresh "run" in
  let Hrun := fresh "Hrun" in
  intros run Hrun; destruct Hrun;
  repeat match goal with
         | H : Caught _ _ _ _ |- _ => destruct H
         end;
  simpl.

(** ** X1: the error boundary *)



(** ** X2: when a run succeeds *)

(** X2. [queryFn] completes normally with [d] exactly when the action
    resolved to an outcome object with neither error field populated whose
    [data] is [d], and [d] is neither [undefined] nor [null]. In particular
    a successful run never yields [undefined] or [null]. *)
Theorem queryFn_success_iff action actionInput callbacks (d : JsValue) :
  (queryFn action actionInput callbacks).2 = Normal d ↔
  ∃ o, action actionInput = Resolved (present o)
       ∧ truthy_string (serverError o) = None
       ∧ truthy_object (validationErrors o) = None
       ∧ data o = d ∧ d ≠ JUndefined ∧ d ≠ JNull.
Proof.
  split.
  - by_run_shape action actionInput callbacks; try discriminate.
    intros [= <-]. destruct result as [| | o]; try discriminate.
    exists o. simpl in *. repeat split; try done.
    + intros Hd. by rewrite Hd in *.
    + intros Hd. by rewrite Hd in *.
  - intros (o & Hres & Hserver & Hvalidation & <- & Hundef & Hnull).
    rewrite (queryFn_without_errors _ _ _ (present o) Hres Hserver
               Hvalidation). simpl.
    by rewrite non_nullish_data.
Qed.

(** The payload [0] is falsy but present: it is returned. *)
Lemma queryFn_success_iff_witness :
  (queryFn (always (Resolved (present (mkOutcome (JNum 0) undefined null))))
     JNull all_callbacks).2 = Normal (JNum 0).
Proof.
  apply (queryFn_success_iff
           (always (Resolved (present (mkOutcome (JNum 0) undefined null))))
           JNull all_callbacks (JNum 0)).
  exists (mkOutcome (JNum 0) undefined null).
  repeat split; discriminate.
Defined.

(** ** X3, X4, X5: the callbacks *)

Lemma length_invocation {A} (callback : Callback A) record a :
  (length (invocation callback record a) ≤ 1)%nat.
Proof. destruct callback; simpl; lia. Qed.

Lemma invocation_returns_nil_or_call {A} (callback : Callback A) record a :
  invocation callback record a = []
  ∨ invocation callback record a = [record a].
Proof. destruct callback; simpl; auto. Qed.

(** X3. One run of [queryFn] invokes at most two callbacks and none when it
    succeeds. Two are invoked only when a callback called inside the [try]
    raised: the first call is then [onServerError] or [onValidationErrors]
    and the second is [onNetworkError]. When those two return normally, at
    most one callback is invoked. *)
Theorem queryFn_at_most_two_callbacks action actionInput callbacks :
  let log := (queryFn action actionInput callbacks).1 in
  (length log ≤ 2)%nat
  ∧ (∀ d, (queryFn action actionInput callbacks).2 = Normal d → log = [])
  ∧ (∀ c1 c2, log = [c1; c2] →
       (∃ e, c2 = call_onNetworkError e) ∧ (∀ e, c1 ≠ call_onNetworkError e))
  ∧ ((∀ s, returns_normally (onServerError callbacks) s) →
     (∀ errors, returns_normally (onValidationErrors callbacks) errors) →
     (length log ≤ 1)%nat).
Proof.
  by_run_shape action actionInput callbacks.
  all: repeat match goal with
         | |- context [invocation ?cb ?r ?a] =>
             let H := fresh in
             destruct (invocation_returns_nil_or_call cb r a) as [H | H];
             rewrite H
         end; simpl.
  all: repeat split; try lia; try done.
  all: try (match goal with
            | H : [_; _] = [_; _] |- _ => injection H as <- <-
            end; first [by eauto | by intros ?]).
  all: try (intros Hs Hv; exfalso;
            repeat match goal with
                   | H : raises _ ?cb ?a _, H' : ∀ x, returns_normally ?cb x
                     |- _ => specialize (H' a); destruct cb; simpl in *
                   end; try done; congruence).
Qed.

Lemma queryFn_at_most_two_callbacks_witness :
  (queryFn (always (Resolved (present (mkOutcome mockData undefined
                                         undefined))))
     JNull all_callbacks).1 = [].
Proof.
  destruct (queryFn_at_most_two_callbacks
              (always (Resolved (present (mkOutcome mockData undefined
                                            undefined))))
              JNull all_callbacks) as (_ & Hsuccess & _).
  apply (Hsuccess mockData). reflexivity.
Defined.

(** X4. Callbacks that return normally and leave their argument as it was
    have no influence on how [queryFn] completes: the value or the error is
    the one of the run without any callback. *)
Theorem queryFn_completion_independent_of_callbacks
    action actionInput (callbacks : Callbacks) :
  well_behaved callbacks →
  (queryFn action actionInput callbacks).2 =
  (queryFn action actionInput no_callbacks).2.
Proof.
  intros (Hserver & Hvalidation & Hnetwork).
  destruct (action actionInput) as [result | reason] eqn:Hsettled.
  - destruct (truthy_string (result_serverError result)) as [msg|] eqn:Hmsg.
    { by rewrite !(queryFn_server_error _ _ _ _ _ Hsettled Hmsg). }
    destruct (truthy_object (result_validationErrors result)) as [V|] eqn:HV.
    { destruct (Hvalidation (nullish_coalesce (_errors V) []))
        as [Hret Hsame].
      rewrite !(queryFn_validation_error _ _ _ _ _ Hsettled Hmsg HV);
        [| done | done].
      simpl. by rewrite (argument_after_unchanged _ _ Hsame). }
    by rewrite !(queryFn_without_errors _ _ _ _ Hsettled Hmsg HV).
  - rewrite !(queryFn_caught _ _ _ _ _ (try_block_rejected _ _ _ _ Hsettled)).
    simpl.
    destruct (instanceof_SafeActionError reason) eqn:Hinst.
    { unfold catch_block. by rewrite Hinst. }
    set (networkError := match reason with
                         | ThrownError e => e
                         | _ => new_Error "Unknown error occurred"
                         end).
    destruct (Hnetwork networkError) as [Hret Hsame].
    rewrite !(catch_block_wraps _ _ Hinst); [| done | done].
    simpl. fold networkError.
    by rewrite (argument_after_unchanged _ _ Hsame).
Qed.

Lemma queryFn_completion_independent_of_callbacks_witness :
  (queryFn (always (Rejected (ThrownError networkFailure))) JNull
     all_callbacks).2
  = (queryFn (always (Rejected (ThrownError networkFailure))) JNull
       no_callbacks).2.
Proof.
  apply queryFn_completion_independent_of_callbacks.
  repeat split.
Defined.

(** X5. Every recorded callback invocation is a call of a function the
    caller supplied, and if that call returned, the run ends with the
    matching error: after [onServerError(s)] the server error of message
    [s] without details; after [onValidationErrors(errors)] the validation
    error built from the outcome's tree and the array as the callback left
    it; after [onNetworkError(e)] the network error wrapping [e] as the
    callback left it. *)
Theorem queryFn_callback_matches_error
    action actionInput callbacks (c : Call) :
  c ∈ (queryFn action actionInput callbacks).1 →
  match c with
  | call_onServerError s =>
      ∃ f, onServerError callbacks = callable f
           ∧ ((f s).2 = Returns →
              (queryFn action actionInput callbacks).2 =
                Abrupt (ThrownSafeActionError
                          (new_SafeActionError s server None)))
  | call_onValidationErrors errors =>
      ∃ f result V,
        onValidationErrors callbacks = callable f
        ∧ action actionInput = Resolved result
        ∧ truthy_object (result_validationErrors result) = Some V
        ∧ nullish_coalesce (_errors V) [] = errors
        ∧ ((f errors).2 = Returns →
                (queryFn action actionInput callbacks).2 =
                  Abrupt (ThrownSafeActionError
                            (new_SafeActionError
                               (or_string (join ", " (f errors).1)
                                          "Validation failed")
                               validation
                               (Some (ValidationTree
                                        (tree_after_callback V
                                           (f errors).1))))))
  | call_onNetworkError e =>
      ∃ f, onNetworkError callbacks = callable f
           ∧ ((f e).2 = Returns →
              (queryFn action actionInput callbacks).2 =
                Abrupt (ThrownSafeActionError
                          (new_SafeActionError
                             ("Network error: " +:+ err_message (f e).1)
                             network (Some (CaughtError (f e).1)))))
  end.
Proof.
  by_run_shape action actionInput callbacks;
    rewrite ?elem_of_app;
    intros Hin;
    repeat match goal with
           | H : _ ∨ _ |- _ => destruct H
           | H : _ ∈ [] |- _ => by apply elem_of_nil in H
           | H : _ ∈ invocation ?cb _ _ |- _ =>
               apply elem_of_invocation in H as [-> [? ?]]
           end;
    repeat match goal with
           | H : ?cb = callable _ |- _ => rewrite H in *; clear H
           end;
    simpl in *; subst;
    repeat eexists; try done; intros Hreturns; simpl in *; congruence.
Qed.

(** The validation tree [{ _errors: ["Invalid input"] }] and a callback
    that pushes a message onto the array it is given. *)
Lemma queryFn_callback_matches_error_witness :
  let V := mkValidationErrors (present ["Invalid input"]) [] in
  let push : Callback (list string) :=
    callable (λ errors, (errors ++ ["seen"], Returns)) in
  let run := queryFn (always (Resolved (present (mkOutcome JUndefined
                                                   undefined (present V)))))
               JNull (mkCallbacks absent push absent) in
  run.2 = Abrupt (ThrownSafeActionError
                    (new_SafeActionError "Invalid input, seen" validation
                       (Some (ValidationTree
                                (mkValidationErrors
                                   (present ["Invalid input"; "seen"]) []))))).
Proof.
  intros V push run.
  destruct (queryFn_callback_matches_error
              (always (Resolved (present (mkOutcome JUndefined undefined
                                            (present V)))))
              JNull (mkCallbacks absent push absent)
              (call_onValidationErrors ["Invalid input"]))
    as (f & result & V' & Hf & Hres & HV' & _ & Hrun).
  - simpl. apply list_elem_of_singleton. reflexivity.
  - injection Hf as <-. injection Hres as <-. injection HV' as <-.
    exact (Hrun eq_refl).
Defined.

(** ** X6 to X9: what the retry policy does with the errors of [queryFn] *)

(** X6. When the action's promise resolved (to an outcome, [null] or
    [undefined]), [onServerError] and [onValidationErrors] return normally
    whenever called, and [queryFn] fails, [retry] refuses the error at every
    failure count: failures reported through the resolved value are never
    retried. *)
Theorem resolved_failure_never_retried
    action actionInput callbacks result (error : Thrown) (n : nat) :
  action actionInput = Resolved result →
  (∀ s, returns_normally (onServerError callbacks) s) →
  (∀ errors, returns_normally (onValidationErrors callbacks) errors) →
  (queryFn action actionInput callbacks).2 = Abrupt error →
  retry n error = false.
Proof.
  intros Hres Hserver Hvalidation.
  destruct (truthy_string (result_serverError result)) as [msg|] eqn:Hmsg.
  { rewrite (queryFn_server_error _ _ _ _ _ Hres Hmsg (Hserver msg)).
    by intros [= <-]. }
  destruct (truthy_object (result_validationErrors result)) as [V|] eqn:HV.
  { rewrite (queryFn_validation_error _ _ _ _ _ Hres Hmsg HV (Hvalidation _)).
    by intros [= <-]. }
  rewrite (queryFn_without_errors _ _ _ _ Hres Hmsg HV).
  destruct (is_undefined (result_data result) || is_null (result_data result));
    [by intros [= <-] | discriminate].
Qed.

Lemma resolved_failure_never_retried_witness :
  retry 0 (ThrownSafeActionError
             (new_SafeActionError "Internal server error" server None))
  = false.
Proof.
  apply (resolved_failure_never_retried
           (always (Resolved (present (mkOutcome JUndefined
                                         (present "Internal server error")
                                         undefined))))
           JNull all_callbacks
           (present (mkOutcome JUndefined (present "Internal server error")
                       undefined)));
    [reflexivity | by intros s | by intros errors | reflexivity].
Defined.

(** X7. When the action rejects with anything that is not a
    [SafeActionError] and [onNetworkError], if supplied, returns normally,
    the error [queryFn] fails with is retried exactly while fewer than three
    failures have been counted. *)
Theorem rejection_retried_below_three
    action actionInput callbacks reason (error : Thrown) (n : nat) :
  action actionInput = Rejected reason →
  instanceof_SafeActionError reason = false →
  (∀ e, returns_normally (onNetworkError callbacks) e) →
  (queryFn action actionInput callbacks).2 = Abrupt error →
  retry n error = true ↔ (n < 3)%nat.
Proof.
  intros Hrej Hinst Hnetwork.
  rewrite (queryFn_caught _ _ _ _ _ (try_block_rejected _ _ _ _ Hrej)).
  rewrite (catch_block_wraps callbacks reason Hinst (Hnetwork _)).
  intros [= <-]. unfold retry. simpl. apply bool_decide_eq_true.
Qed.

Lemma rejection_retried_below_three_witness :
  retry 2 (ThrownSafeActionError
             (new_SafeActionError "Network error: Network failure" network
                (Some (CaughtError networkFailure)))) = true.
Proof.
  apply (rejection_retried_below_three
           (always (Rejected (ThrownError networkFailure))) JNull
           all_callbacks (ThrownError networkFailure));
    [reflexivity | reflexivity | by intros e | reflexivity | lia].
Defined.

(** X8. An action that rejects with a [SafeActionError] of its own chooses
    the classification: [queryFn] fails with that very error, no callback
    is invoked, and [retry] follows the error's type, so only a [network]
    one is retried. *)
Theorem rejected_SafeActionError_passes_through
    action actionInput callbacks (e : SafeActionError) (n : nat) :
  action actionInput = Rejected (ThrownSafeActionError e) →
  queryFn action actionInput callbacks = ([], Abrupt (ThrownSafeActionError e))
  ∧ (retry n (ThrownSafeActionError e) = true ↔
     type e = network ∧ (n < 3)%nat).
Proof.
  intros Hrej. split.
  - apply queryFn_passes_SafeActionError. by apply try_block_rejected.
  - unfold retry. simpl. destruct (type e); simpl.
    + split; [discriminate | by intros [? _]].
    + split; [discriminate | by intros [? _]].
    + rewrite bool_decide_eq_true. split; [by intros ? | by intros [_ ?]].
Qed.

Lemma rejected_SafeActionError_passes_through_witness :
  let e := new_SafeActionError "Upstream timed out" network None in
  queryFn (always (Rejected (ThrownSafeActionError e))) JNull all_callbacks
  = ([], Abrupt (ThrownSafeActionError e))
  ∧ (retry 1 (ThrownSafeActionError e) = true ↔
     type e = network ∧ (1 < 3)%nat).
Proof.
  intros e.
  apply (rejected_SafeActionError_passes_through
           (always (Rejected (ThrownSafeActionError e))) JNull all_callbacks).
  reflexivity.
Defined.

(** X9. [retry] is bounded and monotone in the failure count, for every
    error including ones that are not [SafeActionError]s: it never allows a
    retry once three failures are counted, an error that may be retried
    later may be retried earlier, and an error that is not a
    [SafeActionError] is retried exactly while the count is below three. *)
Theorem retry_bounded (n m : nat) (error : Thrown) :
  ((3 ≤ n)%nat → retry n error = false)
  ∧ ((n ≤ m)%nat → retry m error = true → retry n error = true)
  ∧ (instanceof_SafeActionError error = false →
     (retry n error = true ↔ (n < 3)%nat)).
Proof.
  unfold retry.
  destruct (is_SafeActionError_of_type error validation) eqn:Hv.
  { repeat split; try done. destruct error; discriminate. }
  destruct (is_SafeActionError_of_type error server) eqn:Hs.
  { repeat split; try done. destruct error; discriminate. }
  split; [| split].
  - intros Hn. apply bool_decide_eq_false. lia.
  - rewrite !bool_decide_eq_true. lia.
  - intros _. apply bool_decide_eq_true.
Qed.

Lemma retry_bounded_witness :
  retry 3 (ThrownError networkFailure) = false
  ∧ retry 1 (ThrownError networkFailure) = true
  ∧ (retry 2 (ThrownValue JNull) = true ↔ (2 < 3)%nat).
Proof.
  split; [| split].
  - destruct (retry_bounded 3 3 (ThrownError networkFailure)) as [Hbound _].
    apply Hbound. lia.
  - destruct (retry_bounded 1 2 (ThrownError networkFailure))
      as (_ & Hmono & _).
    apply Hmono; [lia | reflexivity].
  - destruct (retry_bounded 2 2 (ThrownValue JNull)) as (_ & _ & Hraw).
    apply Hraw. reflexivity.
Defined.

(** ** X10, X11: messages *)

Lemma network_message_nonempty (s : string) : "Network error: " +:+ s ≠ "".
Proof. discriminate. Qed.

Lemma or_string_nonempty (s d : string) : d ≠ "" → or_string s d ≠ "".
Proof.
  intros Hd. unfold or_string.
  by destruct (String.eqb_spec s "").
Qed.

Lemma truthy_string_Some_nonempty x (s : string) :
  truthy_string x = Some s → s ≠ "".
Proof.
  destruct x as [| | t]; simpl; try discriminate.
  destruct (String.eqb_spec t ""); [discriminate |]. by intros [= <-].
Qed.

Lemma returns_not_raises {A} callee (callback : Callback A) a error :
  returns_normally callback a → ¬ raises callee callback a error.
Proof.
  destruct callback as [| | f]; simpl; [tauto | tauto |].
  intros ->. discriminate.
Qed.

(** X10. When the callbacks return normally whenever called, every
    failure of [queryFn] is a [SafeActionError] with a non-empty message,
    the one exception being a [SafeActionError] the action itself rejected
    with, which is passed on as it is. *)
Theorem queryFn_message_nonempty
    action actionInput callbacks (error : Thrown) :
  (∀ e', action actionInput ≠ Rejected (ThrownSafeActionError e')) →
  (∀ s, returns_normally (onServerError callbacks) s) →
  (∀ errors, returns_normally (onValidationErrors callbacks) errors) →
  (∀ e, returns_normally (onNetworkError callbacks) e) →
  (queryFn action actionInput callbacks).2 = Abrupt error →
  ∃ e, error = ThrownSafeActionError e ∧ message e ≠ "".
Proof.
  intros Hown Hserver Hvalidation Hnetwork.
  by_run_shape action actionInput callbacks;
    try match goal with
        | H : raises _ ?cb ?a _ |- _ =>
            exfalso; revert H; by apply returns_not_raises
        end;
    intros [= <-]; try (eexists; split; [reflexivity |]; simpl).
  - done.
  - by eapply truthy_string_Some_nonempty.
  - by apply or_string_nonempty.
  - destruct reason as [e' | |]; try discriminate. by destruct (Hown e').
  - apply network_message_nonempty.
Qed.

(** A plain [Error] with an empty message still yields a non-empty one. *)
Lemma queryFn_message_nonempty_witness :
  ∃ e, ThrownSafeActionError
         (new_SafeActionError "Network error: " network
            (Some (CaughtError (new_Error ""))))
       = ThrownSafeActionError e
       ∧ message e ≠ "".
Proof.
  apply (queryFn_message_nonempty
           (always (Rejected (ThrownError (new_Error "")))) JNull
           all_callbacks);
    [discriminate | by intros s | by intros errors | by intros e
    | reflexivity].
Defined.

(** X11. A validation tree without a top-level [_errors] list (the property
    missing or [null]) is handled like one with an empty list: provided
    [onValidationErrors], if supplied, returns normally and leaves the
    empty array empty, the callback receives [[]], the message is
    ["Validation failed"] and the details are the tree; field-level errors
    further down the tree are not looked at. *)
Theorem validation_without_top_level_errors
    action actionInput callbacks (o : ActionOutcome) (V : ValidationErrors) :
  action actionInput = Resolved (present o) →
  truthy_string (serverError o) = None →
  validationErrors o = present V →
  _errors V = undefined ∨ _errors V = null ∨ _errors V = present [] →
  returns_normally (onValidationErrors callbacks) [] →
  leaves_unchanged (onValidationErrors callbacks) [] →
  queryFn action actionInput callbacks =
    (invocation (onValidationErrors callbacks) call_onValidationErrors [],
     Abrupt (ThrownSafeActionError
               (new_SafeActionError "Validation failed" validation
                  (Some (ValidationTree V))))).
Proof.
  intros Hres Hserver HV Herrors Hret Hsame.
  assert (Hnone : nullish_coalesce (_errors V) [] = [])
    by (by destruct Herrors as [-> | [-> | ->]]).
  rewrite (queryFn_validation_error _ _ _ (present o) V Hres Hserver);
    [| simpl; by rewrite HV | by rewrite Hnone].
  pose proof (tree_after_callback_unchanged V) as Htree.
  rewrite Hnone in Htree.
  by rewrite Hnone, (argument_after_unchanged _ _ Hsame), Htree.
Qed.

(** Only a field error: [{ email: { _errors: ["Invalid email"] } }]. *)
Lemma validation_without_top_level_errors_witness :
  let V := mkValidationErrors undefined
             [("email", mkValidationErrors (present ["Invalid email"]) [])] in
  queryFn (always (Resolved (present (mkOutcome JUndefined undefined
                                        (present V)))))
    JNull all_callbacks =
    ([call_onValidationErrors []],
     Abrupt (ThrownSafeActionError
               (new_SafeActionError "Validation failed" validation
                  (Some (ValidationTree V))))).
Proof.
  intros V.
  apply (validation_without_top_level_errors
           (always (Resolved (present (mkOutcome JUndefined undefined
                                         (present V)))))
           JNull all_callbacks (mkOutcome JUndefined undefined (present V)) V);
    [reflexivity | reflexivity | reflexivity | left; reflexivity
    | reflexivity | reflexivity].
Defined.

(** ** X12 to X14: the object handed to the engine *)

Set Warnings "-clear-no-such-hyp".

(** X12. The hook keeps [actionInput] and the three callbacks for itself:
    none of these four properties is ever part of the object handed to the
    query engine, whatever the caller put there. *)
Theorem hook_keys_not_forwarded
    queryKey action (options : gmap string PropValue) (k : string) :
  k ∈ hook_keys → useQuery_options queryKey action options !! k = None.
Proof.
  unfold hook_keys. intros Hk.
  unfold useQuery_options, spread, queryOptions.
  apply lookup_union_None_2.
  - repeat (apply elem_of_cons in Hk as [-> | Hk]);
      [| | | | by apply elem_of_nil in Hk];
      by repeat first [ rewrite lookup_delete_eq
                      | rewrite lookup_delete_ne by done ].
  - repeat (apply elem_of_cons in Hk as [-> | Hk]);
      [| | | | by apply elem_of_nil in Hk];
      by rewrite !lookup_insert_ne, lookup_empty by done.
Qed.

Lemma hook_keys_not_forwarded_witness :
  useQuery_options [JStr "user"] (always (Resolved undefined))
    {[ "actionInput" := Data (JNum 1);
       "onServerError" := CallerFunction quiet_function ]}
  !! "onServerError" = None.
Proof.
  apply hook_keys_not_forwarded.
  unfold hook_keys. apply elem_of_cons. right.
  apply elem_of_cons. left. reflexivity.
Defined.

(** X13. The object handed to the engine has exactly the caller's
    properties other than the four hook keys, plus [queryKey], [queryFn],
    [retry], [staleTime] and [throwOnError]. *)
Theorem handed_options_domain
    queryKey action (options : gmap string PropValue) :
  dom (useQuery_options queryKey action options) =
    (dom options ∖ list_to_set hook_keys)
    ∪ {[ "queryKey"; "queryFn"; "retry"; "staleTime"; "throwOnError" ]}.
Proof.
  unfold useQuery_options, spread, queryOptions, hook_keys.
  rewrite dom_union_L, !dom_delete_L, !dom_insert_L, dom_empty_L.
  simpl. set_solver.
Qed.

(** X14. Unless the caller's options carry a property of the same name,
    the engine receives the hook's own [queryKey], the [retry] policy, and
    as [queryFn] the normalizer run on the action with the caller's
    [actionInput] and with exactly the functions the caller supplied as
    [onServerError], [onValidationErrors] and [onNetworkError] (a missing
    one being absent). *)
Theorem builtin_engine_options
    queryKey action (options : gmap string PropValue) (input : JsValue)
    (serverFn validationFn networkFn : option JsFunction) :
  options !! "actionInput" = Some (Data input) →
  options !! "onServerError" = CallerFunction <$> serverFn →
  options !! "onValidationErrors" = CallerFunction <$> validationFn →
  options !! "onNetworkError" = CallerFunction <$> networkFn →
  let handed := useQuery_options queryKey action options in
  (options !! "queryKey" = None →
   handed !! "queryKey" = Some (Data (JArr queryKey)))
  ∧ (options !! "retry" = None →
     handed !! "retry" = Some (RetryFunction retry))
  ∧ (options !! "queryFn" = None →
     handed !! "queryFn" =
       Some (QueryFunction
               (queryFn action input
                  {| onServerError :=
                       match serverFn with
                       | Some fn => callable (λ s, (s, apply_string fn s))
                       | None => absent
                       end;
                     onValidationErrors :=
                       match validationFn with
                       | Some fn => callable (apply_strings fn)
                       | None => absent
                       end;
                     onNetworkError :=
                       match networkFn with
                       | Some fn => callable (apply_error fn)
                       | None => absent
                       end |}))).
Proof.
  intros Hinput Hserver Hvalidation Hnetwork handed.
  unfold handed, useQuery_options, spread.
  split; [| split]; intros Hnone;
    (rewrite lookup_union_r
       by (rewrite lookup_queryOptions by not_hook_key; exact Hnone));
    repeat first [ rewrite lookup_insert_eq
                 | rewrite lookup_insert_ne by done ]; try done.
  unfold callbacks_of. rewrite Hinput, Hserver, Hvalidation, Hnetwork.
  by destruct serverFn, validationFn, networkFn.
Qed.

(** The action reports its input as the server error, and the caller's
    [onServerError] throws: the [queryFn] handed to the engine runs the
    action on the caller's [actionInput] and calls the caller's function,
    whose exception ends the run as a network error. *)
Lemma builtin_engine_options_witness :
  let echo : JsValue → Settled := λ input,
    match input with
    | JStr s => Resolved (present (mkOutcome JUndefined (present s) undefined))
    | _ => Resolved undefined
    end in
  let failing : JsFunction :=
    {| apply_string := λ _, Throws (ThrownError (new_Error "cb failed"));
       apply_strings := λ errors, (errors, Returns);
       apply_error := λ error, (error, Returns) |} in
  let options : gmap string PropValue :=
    {[ "actionInput" := Data (JStr "boom");
       "onServerError" := CallerFunction failing ]} in
  useQuery_options [JStr "test"] echo options !! "queryFn" =
    Some (QueryFunction
            ([call_onServerError "boom"],
             Abrupt (ThrownSafeActionError
                       (new_SafeActionError "Network error: cb failed" network
                          (Some (CaughtError (new_Error "cb failed"))))))).
Proof.
  intros echo failing options.
  destruct (builtin_engine_options [JStr "test"] echo options (JStr "boom")
              (Some failing) None None eq_refl eq_refl eq_refl eq_refl)
    as (_ & _ & HqueryFn).
  apply HqueryFn. reflexivity.
Defined.

(** ** X15, X16, X17: where each kind of failure comes from *)

(** X15. When [onServerError] and [onValidationErrors] return normally
    whenever called, a [network] failure only ever comes from a rejected
    promise: the rejected value is then that very [SafeActionError], or it
    is not a [SafeActionError] at all. *)
Theorem network_failure_origin
    action actionInput callbacks (e : SafeActionError) :
  (∀ s, returns_normally (onServerError callbacks) s) →
  (∀ errors, returns_normally (onValidationErrors callbacks) errors) →
  (queryFn action actionInput callbacks).2 = Abrupt (ThrownSafeActionError e) →
  type e = network →
  ∃ reason,
    action actionInput = Rejected reason
    ∧ (reason = ThrownSafeActionError e
       ∨ instanceof_SafeActionError reason = false).
Proof.
  intros Hserver Hvalidation.
  by_run_shape action actionInput callbacks;
    try match goal with
        | H : raises _ ?cb ?a _ |- _ =>
            match cb with
            | onNetworkError _ => fail 1
            | _ => exfalso; revert H; by apply returns_not_raises
            end
        end;
    intros [= Heq] Htype; subst; try discriminate; eauto.
Qed.

Lemma network_failure_origin_witness :
  ∃ reason,
    always (Rejected (ThrownError networkFailure)) JNull = Rejected reason
    ∧ (reason =
         ThrownSafeActionError
           (new_SafeActionError "Network error: Network failure" network
              (Some (CaughtError networkFailure)))
       ∨ instanceof_SafeActionError reason = false).
Proof.
  apply (network_failure_origin
           (always (Rejected (ThrownError networkFailure))) JNull
           all_callbacks
           (new_SafeActionError "Network error: Network failure" network
              (Some (CaughtError networkFailure))));
    [by intros s | by intros errors | reflexivity | reflexivity].
Defined.

(** X16. When the promise resolved, [onServerError] and
    [onValidationErrors] return normally whenever called and the latter
    leaves its array unchanged, a failure of [queryFn] is either a [server]
    error without details, or a [validation] error whose details are
    exactly the outcome's [validationErrors] tree. *)
Theorem resolved_failure_shape
    action actionInput callbacks result (e : SafeActionError) :
  action actionInput = Resolved result →
  (∀ s, returns_normally (onServerError callbacks) s) →
  (∀ errors, returns_normally (onValidationErrors callbacks) errors
             ∧ leaves_unchanged (onValidationErrors callbacks) errors) →
  (queryFn action actionInput callbacks).2 = Abrupt (ThrownSafeActionError e) →
  (type e = server ∧ details e = None)
  ∨ (type e = validation
     ∧ ∃ V, result_validationErrors result = present V
            ∧ details e = Some (ValidationTree V)).
Proof.
  intros Hres Hserver Hvalidation.
  destruct (truthy_string (result_serverError result)) as [msg|] eqn:Hmsg.
  { rewrite (queryFn_server_error _ _ _ _ _ Hres Hmsg (Hserver msg)).
    intros [= <-]. by left. }
  destruct (result_validationErrors result) as [| | V] eqn:HV.
  - rewrite (queryFn_without_errors _ _ _ _ Hres Hmsg);
      [| by rewrite HV].
    destruct (is_undefined (result_data result)
              || is_null (result_data result));
      [intros [= <-]; by left | discriminate].
  - rewrite (queryFn_without_errors _ _ _ _ Hres Hmsg);
      [| by rewrite HV].
    destruct (is_undefined (result_data result)
              || is_null (result_data result));
      [intros [= <-]; by left | discriminate].
  - destruct (Hvalidation (nullish_coalesce (_errors V) [])) as [Hret Hsame].
    rewrite (queryFn_validation_error _ _ _ _ V Hres Hmsg);
      [| by rewrite HV | done].
    rewrite (argument_after_unchanged _ _ Hsame),
      tree_after_callback_unchanged.
    intros [= <-]. right. eauto.
Qed.

Lemma resolved_failure_shape_witness :
  let V := mkValidationErrors (present ["General error"])
             [("username", mkValidationErrors (present ["Too short"]) [])] in
  let e := new_SafeActionError "General error" validation
             (Some (ValidationTree V)) in
  (type e = server ∧ details e = None)
  ∨ (type e = validation
     ∧ ∃ V', result_validationErrors
               (present (mkOutcome JUndefined undefined (present V)))
             = present V'
             ∧ details e = Some (ValidationTree V')).
Proof.
  intros V e.
  apply (resolved_failure_shape
           (always (Resolved (present (mkOutcome JUndefined undefined
                                         (present V)))))
           JNull all_callbacks
           (present (mkOutcome JUndefined undefined (present V))) e);
    [reflexivity | by intros s | by intros errors | reflexivity].
Defined.

(** X17. An exception of [onServerError] or [onValidationErrors] replaces
    the failure being reported: when the callback throws an [Error] [t]
    (and [onNetworkError], if supplied, returns normally and leaves [t]
    unchanged), the run ends with the network error wrapping [t] instead of
    the server or validation error, [onNetworkError] is called with [t]
    after the first callback, and [retry] accepts the error while fewer
    than three failures are counted. *)
Theorem callback_exception_becomes_network_error
    action actionInput callbacks result (t : JsError) (n : nat) :
  action actionInput = Resolved result →
  returns_normally (onNetworkError callbacks) t →
  leaves_unchanged (onNetworkError callbacks) t →
  let e := new_SafeActionError ("Network error: " +:+ err_message t) network
             (Some (CaughtError t)) in
  (∀ msg f,
     truthy_string (result_serverError result) = Some msg →
     onServerError callbacks = callable f →
     (f msg).2 = Throws (ThrownError t) →
     queryFn action actionInput callbacks =
       (call_onServerError msg
        :: invocation (onNetworkError callbacks) call_onNetworkError t,
        Abrupt (ThrownSafeActionError e)))
  ∧ (∀ V f,
       truthy_string (result_serverError result) = None →
       truthy_object (result_validationErrors result) = Some V →
       onValidationErrors callbacks = callable f →
       (f (nullish_coalesce (_errors V) [])).2 = Throws (ThrownError t) →
       queryFn action actionInput callbacks =
         (call_onValidationErrors (nullish_coalesce (_errors V) [])
          :: invocation (onNetworkError callbacks) call_onNetworkError t,
          Abrupt (ThrownSafeActionError e)))
  ∧ (retry n (ThrownSafeActionError e) = true ↔ (n < 3)%nat).
Proof.
  intros Hres Hret Hsame e.
  pose proof (catch_block_wraps callbacks (ThrownError t) eq_refl Hret)
    as Hcatch.
  simpl in Hcatch. rewrite (argument_after_unchanged _ _ Hsame) in Hcatch.
  pose proof (try_block_resolved _ _ callbacks _ Hres) as Htry.
  split; [| split].
  - intros msg f Hmsg Hf Hthrows. rewrite Hmsg in Htry.
    rewrite (queryFn_call_then_throw _ _ _ _ _ _ _ _ Htry), Hf. simpl.
    destruct (f msg) as [after completion]. simpl in Hthrows. subst.
    by rewrite Hcatch.
  - intros V f Hmsg HV Hf Hthrows. rewrite Hmsg, HV in Htry.
    rewrite (queryFn_call_then_throw _ _ _ _ _ _ _ _ Htry), Hf. simpl.
    destruct (f (nullish_coalesce (_errors V) [])) as [after completion].
    simpl in Hthrows. subst. by rewrite Hcatch.
  - unfold retry. simpl. apply bool_decide_eq_true.
Qed.

(** [{ serverError: "boom" }] with an [onServerError] that throws
    [new Error("cb failed")] and a mock [onNetworkError]. *)
Lemma callback_exception_becomes_network_error_witness :
  let failed := new_Error "cb failed" in
  queryFn (always (Resolved (present (mkOutcome JUndefined (present "boom")
                                        undefined))))
    JNull (mkCallbacks (throwing (ThrownError failed)) mock mock)
  = ([call_onServerError "boom"; call_onNetworkError failed],
     Abrupt (ThrownSafeActionError
               (new_SafeActionError "Network error: cb failed" network
                  (Some (CaughtError failed))))).
Proof.
  intros failed.
  destruct (callback_exception_becomes_network_error
              (always (Resolved (present (mkOutcome JUndefined
                                            (present "boom") undefined))))
              JNull (mkCallbacks (throwing (ThrownError failed)) mock mock)
              (present (mkOutcome JUndefined (present "boom") undefined))
              failed 0 eq_refl eq_refl eq_refl) as (Hserver & _ & _).
  apply (Hserver "boom" (λ a, (a, Throws (ThrownError failed))));
    reflexivity.
Defined.

(** ** X18: a callback property that is not a function *)

(** X18. An [onServerError] property holding [undefined] or [null] is
    skipped like a missing one, so the server error is reported without any
    call. Holding any other plain value, the optional call raises a
    [TypeError] inside the [try]: nothing is recorded for [onServerError]
    and (with no [onNetworkError]) the run ends as the network error
    wrapping that [TypeError], not as the server error. *)
Theorem non_function_onServerError
    action (options : gmap string PropValue) (input : JsValue)
    (o : ActionOutcome) (S : string) (v : JsValue) :
  options !! "onServerError" = Some (Data v) →
  options !! "onNetworkError" = None →
  action input = Resolved (present o) →
  serverError o = present S →
  S ≠ "" →
  queryFn action input (callbacks_of options) =
    if is_undefined v || is_null v
    then ([], Abrupt (ThrownSafeActionError
                        (new_SafeActionError S server None)))
    else ([], Abrupt (ThrownSafeActionError
                        (new_SafeActionError
                           "Network error: onServerError is not a function"
                           network
                           (Some (CaughtError
                                    {| err_name := "TypeError";
                                       err_message :=
                                         "onServerError is not a function"
                                    |}))))).
Proof.
  intros Hserver Hnetwork Hres HS Hne.
  assert (Htruthy : truthy_string (result_serverError (present o)) = Some S)
    by (simpl; by rewrite HS, truthy_string_nonempty).
  pose proof (try_block_resolved _ _ (callbacks_of options) _ Hres) as Htry.
  rewrite Htruthy in Htry.
  rewrite (queryFn_call_then_throw _ _ _ _ _ _ _ _ Htry).
  unfold callbacks_of, catch_block. simpl. rewrite Hserver, Hnetwork.
  by destruct v.
Qed.

Lemma non_function_onServerError_witness :
  queryFn (always (Resolved (present (mkOutcome JUndefined (present "boom")
                                        undefined))))
    JNull
    (callbacks_of {[ "onServerError" := Data (JStr "not a function") ]})
  = ([], Abrupt (ThrownSafeActionError
                   (new_SafeActionError
                      "Network error: onServerError is not a function"
                      network
                      (Some (CaughtError
                               {| err_name := "TypeError";
                                  err_message :=
                                    "onServerError is not a function" |}))))).
Proof.
  apply (non_function_onServerError
           (always (Resolved (present (mkOutcome JUndefined (present "boom")
                                         undefined))))
           {[ "onServerError" := Data (JStr "not a function") ]} JNull
           (mkOutcome JUndefined (present "boom") undefined) "boom"
           (JStr "not a function"));
    [reflexivity | reflexivity | reflexivity | reflexivity | discriminate].
Defined.
